(** * Steam mass launch options setter: the document tree and the bulk edit

    A shallow embedding of [steam_mass_launch_ops_setter.pyw].  The parsed
    [localconfig.vdf] is a Python dict of dicts and strings; the Python dicts
    keep insertion order, so a dict is an association list here.  The method
    [MainWindow.set_launch_options] reloads the chosen user's file, walks the
    app sub-dictionary, mutates the per-app dicts in place, counts what it
    altered and, when the count is positive, dumps the whole document back to
    the file.

    The file has two parts.  The first holds the definitions: the tree and
    the dict operations, the loop, the window with its files and message
    boxes, the methods, and the wire format of the [vdf] package as the
    specification describes it.  The second holds the properties: facts
    about dicts and about the loop body, then what the loop does when it
    sets, erases, runs twice or meets an empty section, what it leaves
    alone, what its counter counts, when the method writes the file, and the
    round trip through the wire format. *)

From Stdlib Require Import Ascii.
From stdpp Require Import base option list strings gmap ssreflect.

#[local] Set Warnings "-register-all,-rewrite-rw,-clear-no-such-hyp".

(** ** The document tree *)

(** What [vdf.load] hands back: a string, or a dict from keys to such values. *)
Inductive Node : Type :=
| Leaf (s : string)
| Section (items : list (string * Node)).

(** A Python dict with string keys, in insertion order. *)
Abbreviation Dict := (list (string * Node)).

Module PyDict.

(** [k in d] *)
Fixpoint contains (k : string) (d : Dict) : bool :=
  match d with
  | [] => false
  | (k', _) :: d' => if decide (k' = k) then true else contains k d'
  end.

(** [d[k]]; [None] stands for the [KeyError]. *)
Fixpoint get (k : string) (d : Dict) : option Node :=
  match d with
  | [] => None
  | (k', v) :: d' => if decide (k' = k) then Some v else get k d'
  end.

(** [d[k] = v]: an existing key keeps its place, a new key goes to the end. *)
Fixpoint set (k : string) (v : Node) (d : Dict) : Dict :=
  match d with
  | [] => [(k, v)]
  | (k', v') :: d' =>
      if decide (k' = k) then (k, v) :: d' else (k', v') :: set k v d'
  end.

(** [del d[k]]: the entry under [k] goes, the others keep their order. *)
Definition del (k : string) (d : Dict) : Dict :=
  filter (λ kv, kv.1 ≠ k) d.

(** The entries of [d] under keys other than [k], in order. *)
Definition others (k : string) (d : Dict) : Dict :=
  filter (λ kv, kv.1 ≠ k) d.

(** [d.keys()] *)
Definition keys (d : Dict) : list string := d.*1.

(** A dict holds each key once. *)
Definition wf (d : Dict) : Prop := NoDup (keys d).

End PyDict.

(** [needle in hay] on two Python strings. *)
Fixpoint str_contains (needle hay : string) : bool :=
  String.prefix needle hay ||
  match hay with
  | EmptyString => false
  | String _ hay' => str_contains needle hay'
  end.

(** The truth value of a Python string: empty is false. *)
Definition truthy (s : string) : bool :=
  match s with
  | EmptyString => false
  | String _ _ => true
  end.

(** [ops != new_option], with [new_option] a string: a dict never equals one. *)
Definition differs (ops : Node) (new_option : string) : bool :=
  match ops with
  | Leaf s => negb (String.eqb s new_option)
  | Section _ => true
  end.

(** ** Exceptions *)

Inductive Exn : Type :=
| KeyError (k : string)
| TypeError
| AttributeError
| FileNotFoundError (path : string)
| SyntaxError.

(** ** Module constants *)

Definition NEW_OPTION : string := "obs-gamecapture %command%".
Definition OVERWRITE : bool := false.
Definition LaunchOptions : string := "LaunchOptions".

(** ** The loop of [set_launch_options] (lines 195 to 224) *)

(** What the loop prints for an app that already has other options:
    the app id and the options found. *)
Definition Advisory : Type := string * Node.

(** The loop's local state: the counter [altered] and what was printed. *)
Record LoopState : Type := mkLoopState {
  altered : nat;
  printed : list Advisory;
}.

(** One pass of the loop body over [(appid, appconf)].  The body mutates
    [appconf] in place, so the pass returns the app's dict as it leaves it. *)
Definition loop_body (new_option : string) (appid : string) (appconf : Node)
    (st : LoopState) : Exn + (Node * LoopState) :=
  match appconf with
  | Section fields =>
      if PyDict.contains LaunchOptions fields then
        match PyDict.get LaunchOptions fields with
        | None => inl (KeyError LaunchOptions)
        | Some ops =>
            if truthy new_option then
              if differs ops new_option then
                let st := mkLoopState (altered st) (printed st ++ [(appid, ops)]) in
                if OVERWRITE then
                  inr (Section (PyDict.set LaunchOptions (Leaf new_option) fields),
                       mkLoopState (altered st + 1) (printed st))
                else inr (Section fields, st)
              else inr (Section fields, st)
            else
              inr (Section (PyDict.del LaunchOptions fields),
                   mkLoopState (altered st + 1) (printed st))
        end
      else if truthy new_option then
        inr (Section (PyDict.set LaunchOptions (Leaf new_option) fields),
             mkLoopState (altered st + 1) (printed st))
      else inr (Section fields, st)
  | Leaf s =>
      (* on a string, [in] is the substring test, and indexing by a string
         or assigning through an index raises *)
      if str_contains LaunchOptions s then inl TypeError
      else if truthy new_option then inl TypeError
      else inr (Leaf s, st)
  end.

(** The outcome of the loop: the app dicts as the loop left them, the loop's
    state, and the exception that stopped it, if one did. *)
Record LoopOut : Type := mkLoopOut {
  apps_after : Dict;
  state_after : LoopState;
  raised : option Exn;
}.

(** [for appid, appconf in appconfs.items(): ...], from state [st]. *)
Fixpoint edit_loop (new_option : string) (appconfs : Dict) (st : LoopState)
    : LoopOut :=
  match appconfs with
  | [] => mkLoopOut [] st None
  | (appid, appconf) :: rest =>
      match loop_body new_option appid appconf st with
      | inl e => mkLoopOut ((appid, appconf) :: rest) st (Some e)
      | inr (appconf', st') =>
          let out := edit_loop new_option rest st' in
          mkLoopOut ((appid, appconf') :: apps_after out)
                    (state_after out) (raised out)
      end
  end.

Arguments loop_body : simpl never.

(** ** Paths into the document *)

(** [node[k1][k2]...]: a missing key raises [KeyError], and a string indexed
    by a key raises [TypeError]. *)
Fixpoint navigate (path : list string) (node : Node) : Exn + Node :=
  match path with
  | [] => inr node
  | k :: path' =>
      match node with
      | Section items =>
          match PyDict.get k items with
          | Some v => navigate path' v
          | None => inl (KeyError k)
          end
      | Leaf _ => inl TypeError
      end
  end.

(** The value under the first entry of [d] with key [k] replaced by [f] of it. *)
Fixpoint update_first (k : string) (f : Node → Node) (d : Dict) : Dict :=
  match d with
  | [] => []
  | (k', v) :: d' =>
      if decide (k' = k) then (k', f v) :: d' else (k', v) :: update_first k f d'
  end.

(** The document with the node that [navigate path] reaches replaced by
    [new].  The loop mutates the dict that [cur_appconfs] returns, which is
    the very object stored inside the document: this is the document as seen
    through [user_datas] afterwards. *)
Fixpoint replace_at (path : list string) (new : Node) (node : Node) : Node :=
  match path with
  | [] => new
  | k :: path' =>
      match node with
      | Section items => Section (update_first k (replace_at path' new) items)
      | Leaf s => Leaf s
      end
  end.

Arguments navigate : simpl never.
Arguments replace_at : simpl never.

Definition APPS_PATH : list string :=
  ["UserLocalConfigStore"; "Software"; "Valve"; "Steam"; "apps"].

Definition NAME_PATH (loc_user_id : string) : list string :=
  ["UserLocalConfigStore"; "friends"; loc_user_id; "name"].

(** ** The window, the files and what the user sees *)

(** The text of the statistics label: the start-up text, or the two counts
    that [refresh_statistics] formats into it. *)
Inductive Statistics : Type :=
| NoUserSelected
| GamesWithOptions (games have_ops : nat).

Record MainWindow : Type := mkMainWindow {
  user_datas : gmap string Node;         (* local id to loaded document *)
  user_local_ids : gmap string string;   (* user name to local id *)
  user_choice : string;                  (* the option menu *)
  statistics : Statistics;               (* the label *)
  overwrite : bool;                      (* the Overwrite check box *)
  ops_entry : string;                    (* the Launch options entry *)
}.

(** What the method does outside the window's fields. *)
Inductive Event : Type :=
| EvPrint (a : Advisory)
| EvShowError (title : string)
| EvShowInfo (title : string) (n : nat)
| EvFileWrite (path content : string).

Record World : Type := mkWorld {
  win : MainWindow;
  files : gmap string string;            (* path to file content *)
  events : list Event;                   (* oldest first *)
}.

(** Python code over the world: it ends in a value or in an exception, and
    the world keeps whatever was done before either. *)
Definition M (A : Type) : Type := World → World * (Exn + A).

#[export] Instance M_ret : MRet M := λ A a w, (w, inr a).
#[export] Instance M_bind : MBind M := λ A B f m w,
  match m w with
  | (w', inl e) => (w', inl e)
  | (w', inr a) => f a w'
  end.

(** [raise e] *)
Definition raise {A} (e : Exn) : M A := λ w, (w, inl e).

(** A computation that touches nothing: its value or its exception. *)
Definition lift {A} (r : Exn + A) : M A := λ w, (w, r).

(** Reading a field of the window. *)
Definition gets {A} (f : MainWindow → A) : M A := λ w, (w, inr (f (win w))).

(** Assigning to fields of the window. *)
Definition modify_win (f : MainWindow → MainWindow) : M unit :=
  λ w, (mkWorld (f (win w)) (files w) (events w), inr ()).

(** [print], [mb.showerror] and [mb.showinfo]. *)
Definition emit (evs : list Event) : M unit :=
  λ w, (mkWorld (win w) (files w) (events w ++ evs), inr ()).

(** [open(path, encoding=...)] and read: a missing file raises. *)
Definition read_file (path : string) : M string := λ w,
  match files w !! path with
  | Some content => (w, inr content)
  | None => (w, inl (FileNotFoundError path))
  end.

(** [open(path, "w", ...)] and write [content]. *)
Definition write_file (path content : string) : M unit := λ w,
  (mkWorld (win w) (<[path := content]> (files w))
           (events w ++ [EvFileWrite path content]), inr ()).

(** Assignments to single fields of the window. *)
Definition set_user_datas (v : gmap string Node) (self : MainWindow)
    : MainWindow :=
  mkMainWindow v (user_local_ids self) (user_choice self) (statistics self)
               (overwrite self) (ops_entry self).
Definition set_user_local_ids (v : gmap string string) (self : MainWindow)
    : MainWindow :=
  mkMainWindow (user_datas self) v (user_choice self) (statistics self)
               (overwrite self) (ops_entry self).
Definition set_statistics (v : Statistics) (self : MainWindow)
    : MainWindow :=
  mkMainWindow (user_datas self) (user_local_ids self) (user_choice self) v
               (overwrite self) (ops_entry self).

(** The user ticks or clears the Overwrite check box. *)
Definition set_overwrite (v : bool) (self : MainWindow) : MainWindow :=
  mkMainWindow (user_datas self) (user_local_ids self) (user_choice self)
               (statistics self) v (ops_entry self).

(** Lines 194 to 224 on the window [self] and the app dicts [appconfs]: the
    new options come from the entry, the counter starts at zero, and the
    loop runs.  The check box [overwrite self] is not read. *)
Definition edit_apps (self : MainWindow) (appconfs : Dict) : LoopOut :=
  let new_option := ops_entry self in
  let altered := 0 in
  edit_loop new_option appconfs (mkLoopState altered []).

(** [appconfs.items()]: only a dict has it. *)
Definition items_of (node : Node) : Exn + Dict :=
  match node with
  | Section items => inr items
  | Leaf _ => inl AttributeError
  end.

(** ["LaunchOptions" in appconf] *)
Definition has_launch_options (appconf : Node) : bool :=
  match appconf with
  | Section fields => PyDict.contains LaunchOptions fields
  | Leaf s => str_contains LaunchOptions s
  end.

Section Methods.

(** The [userdata] folder of the Steam installation, and the two functions of
    the [vdf] package the program calls: [vdf.load] on a file's text (it
    raises on text it cannot parse) and [vdf.dump(..., pretty=True)]. *)
Variable USERDATA_DIR : string.
Variable vdf_load : string → Exn + Node.
Variable vdf_dump : Node → string.

Definition get_config_file_path (loc_user_id : string) : string :=
  USERDATA_DIR +:+ "/" +:+ loc_user_id +:+ "/config/localconfig.vdf".

Definition load_user_config (loc_user_id : string) : M unit :=
  text ← read_file (get_config_file_path loc_user_id);
  data ← lift (vdf_load text);
  name ← lift (navigate (NAME_PATH loc_user_id) data);
  match name with
  | Leaf name =>
      modify_win (λ self,
        set_user_local_ids (<[name := loc_user_id]> (user_local_ids self)) self);;
      modify_win (λ self,
        set_user_datas (<[loc_user_id := data]> (user_datas self)) self)
  | Section _ => raise TypeError   (* a dict is no dict key *)
  end.

(** The property [cur_loc_id]. *)
Definition cur_loc_id : M string :=
  self ← gets id;
  match user_local_ids self !! user_choice self with
  | Some loc => mret loc
  | None => raise (KeyError (user_choice self))
  end.

(** [self.user_datas[loc]] *)
Definition user_data (loc : string) : M Node :=
  self ← gets id;
  match user_datas self !! loc with
  | Some data => mret data
  | None => raise (KeyError loc)
  end.

(** The property [cur_appconfs]. *)
Definition cur_appconfs : M Node :=
  loc ← cur_loc_id;
  data ← user_data loc;
  lift (navigate APPS_PATH data).

Definition refresh_statistics : M unit :=
  appconfs ← cur_appconfs;
  items ← lift (items_of appconfs);
  let have_ops := length (filter (λ kv, has_launch_options kv.2 = true) items) in
  appconfs' ← cur_appconfs;
  match appconfs' with
  | Section items' =>
      modify_win (set_statistics (GamesWithOptions (length items') have_ops))
  | Leaf s =>
      modify_win (set_statistics (GamesWithOptions (String.length s) have_ops))
  end.

(** The loop over [self.cur_appconfs.items()], on the document in memory:
    the dicts it mutates are the ones inside [user_datas], so the document
    there changes with them, also when the loop stops on an exception. *)
Definition run_loop : M LoopState :=
  self ← gets id;
  loc ← cur_loc_id;
  data ← user_data loc;
  appconfs ← lift (navigate APPS_PATH data);
  items ← lift (items_of appconfs);
  let out := edit_apps self items in
  modify_win (λ self,
    set_user_datas
      (<[loc := replace_at APPS_PATH (Section (apps_after out)) data]>
         (user_datas self)) self);;
  emit (EvPrint <$> printed (state_after out));;
  match raised out with
  | Some e => raise e
  | None => mret (state_after out)
  end.

Definition set_launch_options : M unit :=
  (* Make sure our data on the user is up to date *)
  loc ← cur_loc_id;
  load_user_config loc;;
  st ← run_loop;
  (if decide (altered st = 0) then
     (* No changes were made *)
     emit [EvShowError "No changes made"]
   else
     (* Some changes were made *)
     loc ← cur_loc_id;
     loc' ← cur_loc_id;
     data ← user_data loc';
     write_file (get_config_file_path loc) (vdf_dump data);;
     emit [EvShowInfo "Changes made" (altered st)]);;
  refresh_statistics.

End Methods.

(** ** Start-up scan and user selection *)

(** How [scan_for_users] ends when no exception stops it: it returns, or it
    shows its message box, destroys the window and leaves the program
    through [sys.exit] with the given status. *)
Inductive ScanEnd : Type :=
| Scanned
| Exited (status : nat).

Section StartUp.

Variable USERDATA_DIR : string.
Variable vdf_load : string → Exn + Node.

(** [for loc_user_id in found: self.load_user_config(loc_user_id)] *)
Fixpoint load_each (found : list string) : M unit :=
  match found with
  | [] => mret ()
  | loc_user_id :: found' =>
      load_user_config USERDATA_DIR vdf_load loc_user_id;;
      load_each found'
  end.

(** [scan_for_users], where [found] is what
    [glob.glob("*", root_dir=USERDATA_DIR)] returns: the names of the entries
    of the [userdata] folder, in the order the system lists them. *)
Definition scan_for_users (found : list string) : M ScanEnd :=
  (* Clear existing scan *)
  modify_win (set_user_local_ids ∅);;
  modify_win (set_user_datas ∅);;
  load_each found;;
  self ← gets id;
  (* No users were found *)
  if decide (user_local_ids self = ∅) then
    emit [EvShowError "No users found"];;
    mret (Exited 1)
  else mret Scanned.

(** [on_user_select(e)]: the line it prints, then what it does to the world.
    The line is printed before anything can raise. *)
Definition on_user_select (e : string) (w : World)
    : string * (World * (Exn + unit)) :=
  ("User `" +:+ e +:+ "` selected.",
   (loc ← cur_loc_id;
    (* Make sure our data on the user is up to date *)
    load_user_config USERDATA_DIR vdf_load loc;;
    refresh_statistics) w).

End StartUp.

(** ** The scenarios of the specification *)

(** The three apps of Scenarios A, B and C. *)
Definition scenario_apps : Dict :=
  [("10", Section [(LaunchOptions, Leaf "-a")]);
   ("20", Section []);
   ("30", Section [(LaunchOptions, Leaf "-x")])].

(** A window with the given entry text and check box, nothing loaded. *)
Definition window (new_option : string) (overwrite : bool) : MainWindow :=
  mkMainWindow ∅ ∅ "" NoUserSelected overwrite new_option.

(** An app's dict, as opposed to a string in its place. *)
Definition is_section (appconf : Node) : Prop :=
  match appconf with
  | Section _ => True
  | Leaf _ => False
  end.

(** What an app has under ["LaunchOptions"], if it is a dict that has it. *)
Definition launch_options (appconf : Node) : option Node :=
  match appconf with
  | Section fields => PyDict.get LaunchOptions fields
  | Leaf _ => None
  end.

(** ** The wire format

    The program reads and writes the file through the [vdf] package
    ([vdf.load] at line 104, [vdf.dump] at line 233), which is not among the
    sources.  The definitions of this module follow the specification's
    Parse and Serialize (its sections 3, 4.1 and 6) instead. *)

Module Vdf.

(** Modelled from the spec: the double quote that delimits keys and Leaf
    values in the wire format; its reader and writer, the [vdf] package, are
    not among the sources. *)
Definition QUOTE : ascii := "034"%char.

(** Modelled from the spec: the backslash, the escape character of the
    missing reader and writer. *)
Definition BACKSLASH : ascii := "092"%char.

(** Modelled from the spec: the tab, the missing writer's indentation and
    whitespace to the missing reader. *)
Definition TAB : ascii := "009"%char.

(** Modelled from the spec: the newline that ends each line of the missing
    writer's output. *)
Definition NEWLINE : ascii := "010"%char.

(** Modelled from the spec: the carriage return, whitespace to the missing
    reader as part of a newline. *)
Definition RETURN : ascii := "013"%char.

(** Modelled from the spec: the space, whitespace to the missing reader. *)
Definition SPACE : ascii := "032"%char.

(** Modelled from the spec: the brace that opens a nested Section in the
    missing reader's and writer's format. *)
Definition OPEN : ascii := "123"%char.

(** Modelled from the spec: the brace that closes a nested Section. *)
Definition CLOSE : ascii := "125"%char.

(** Modelled from the spec: the whitespace between tokens ("spaces, tabs,
    newlines"), which the missing parser skips. *)
Definition is_space (c : ascii) : bool :=
  bool_decide (c = SPACE ∨ c = TAB ∨ c = NEWLINE ∨ c = RETURN).

(** Modelled from the spec: why the missing parser fails.  The first four are
    the failures section 4.1 lists; [UnexpectedInput] is any other input
    outside the grammar; [Exhausted] is the fuel of [parse_items] running
    out, which [Parse] never lets happen. *)
Inductive Reason : Type :=
| UnterminatedString
| SectionNeverClosed
| SectionNeverOpened
| KeyWithoutValue
| UnexpectedInput
| Exhausted.

(** Modelled from the spec: the missing parser's [ParseError], "carrying a
    byte offset". *)
Record ParseError : Type := mkParseError {
  offset : nat;
  reason : Reason;
}.

(** Modelled from the spec: the token classes of the missing parser: a quoted
    string, the two braces of a block, and the end of the input. *)
Inductive Token : Type :=
| TString (s : string)
| TOpen
| TClose
| TEnd.

(** Modelled from the spec: the missing parser's reading of a quoted string
    after its opening quote, up to the closing quote, with an escaped quote
    or backslash unescaped; the result is the string and the input after the
    closing quote, or nothing when the string is unterminated. *)
Fixpoint read_quoted (s : string) : option (string * string) :=
  match s with
  | EmptyString => None
  | String c s' =>
      if decide (c = QUOTE) then Some (EmptyString, s')
      else if decide (c = BACKSLASH) then
        match s' with
        | String c' s'' =>
            if decide (c' = QUOTE ∨ c' = BACKSLASH) then
              prod_map (String c') id <$> read_quoted s''
            else prod_map (String c) id <$> read_quoted s'
        | EmptyString => None
        end
      else prod_map (String c) id <$> read_quoted s'
  end.

(** Modelled from the spec: the missing parser's one token of lookahead.
    Whitespace is skipped; an error carries the number of bytes that were
    left when it was found. *)
Fixpoint next_token (s : string) : Reason * nat + Token * string :=
  match s with
  | EmptyString => inr (TEnd, EmptyString)
  | String c s' =>
      if is_space c then next_token s'
      else if decide (c = QUOTE) then
        match read_quoted s' with
        | Some (str, rest) => inr (TString str, rest)
        | None => inl (UnterminatedString, 0)
        end
      else if decide (c = OPEN) then inr (TOpen, s')
      else if decide (c = CLOSE) then inr (TClose, s')
      else inl (UnexpectedInput, String.length s)
  end.

(** Modelled from the spec: the missing recursive-descent parser of the
    entries of one Section, [(key value)*], where a value is a quoted string
    or a nested Section in braces.  [top] says that this is the outermost
    Section, which has no braces and ends with the input; [acc] holds the
    entries read so far; a key read again overwrites its value (last write
    wins).  Each call uses up one unit of [fuel] and at least one byte. *)
Fixpoint parse_items (fuel : nat) (top : bool) (s : string) (acc : Dict)
    : Reason * nat + Dict * string :=
  match fuel with
  | 0 => inl (Exhausted, String.length s)
  | S fuel =>
      match next_token s with
      | inl err => inl err
      | inr (TEnd, _) =>
          if top then inr (acc, EmptyString) else inl (SectionNeverClosed, 0)
      | inr (TClose, rest) =>
          if top then inl (SectionNeverOpened, S (String.length rest))
          else inr (acc, rest)
      | inr (TOpen, rest) => inl (UnexpectedInput, S (String.length rest))
      | inr (TString key, rest) =>
          match next_token rest with
          | inl err => inl err
          | inr (TString value, rest') =>
              parse_items fuel top rest' (PyDict.set key (Leaf value) acc)
          | inr (TOpen, rest') =>
              match parse_items fuel false rest' [] with
              | inl err => inl err
              | inr (items, rest'') =>
                  parse_items fuel top rest''
                    (PyDict.set key (Section items) acc)
              end
          | inr (TClose, rest') => inl (KeyWithoutValue, S (String.length rest'))
          | inr (TEnd, _) => inl (KeyWithoutValue, 0)
          end
      end
  end.

(** Modelled from the spec: [Parse(bytes) → Document | ParseError] of the
    missing parser.  A Document is its root Section, given by its entries. *)
Definition Parse (b : string) : ParseError + Dict :=
  match parse_items (S (String.length b)) true b [] with
  | inl (why, remaining) => inl (mkParseError (String.length b - remaining) why)
  | inr (items, _) => inr items
  end.

(** Modelled from the spec: how the missing serializer escapes "embedded quote
    and backslash characters". *)
Fixpoint escape (s : string) : string :=
  match s with
  | EmptyString => EmptyString
  | String c s' =>
      if decide (c = QUOTE ∨ c = BACKSLASH)
      then String BACKSLASH (String c (escape s'))
      else String c (escape s')
  end.

(** Modelled from the spec: a key or a Leaf value as the missing serializer
    writes it, between double quotes. *)
Definition quoted (s : string) : string :=
  String QUOTE (escape s +:+ String QUOTE EmptyString).

(** Modelled from the spec: the missing serializer's indentation, "one
    indentation level per nesting depth (tab character per level)". *)
Fixpoint indent (depth : nat) : string :=
  match depth with
  | 0 => EmptyString
  | S depth => String TAB (indent depth)
  end.

(** Modelled from the spec: one entry as the missing serializer emits it,
    one key and quoted value, or one key and a nested block, per line, each
    line ended by a newline. *)
Fixpoint serialize_entry (depth : nat) (key : string) (value : Node) : string :=
  match value with
  | Leaf s =>
      indent depth +:+ quoted key +:+ String SPACE (quoted s)
        +:+ String NEWLINE EmptyString
  | Section items =>
      indent depth +:+ quoted key +:+ String NEWLINE EmptyString
        +:+ indent depth +:+ String OPEN (String NEWLINE EmptyString)
        +:+ (fix entries (items : Dict) : string :=
               match items with
               | [] => EmptyString
               | (k, v) :: items' =>
                   serialize_entry (S depth) k v +:+ entries items'
               end) items
        +:+ indent depth +:+ String CLOSE (String NEWLINE EmptyString)
  end.

(** Modelled from the spec: the entries of a Section as the missing
    serializer emits them, in their stored order. *)
Fixpoint serialize_items (depth : nat) (items : Dict) : string :=
  match items with
  | [] => EmptyString
  | (k, v) :: items' => serialize_entry depth k v +:+ serialize_items depth items'
  end.

(** Modelled from the spec: [Serialize(Document) → bytes] of the missing
    serializer; the outermost Section has no braces. *)
Definition Serialize (d : Dict) : string := serialize_items 0 d.

End Vdf.

(** Every dict of the tree holds each key once. *)
Fixpoint wf_node (n : Node) : Prop :=
  match n with
  | Leaf _ => True
  | Section items =>
      NoDup items.*1 ∧
      (fix all (items : Dict) : Prop :=
         match items with
         | [] => True
         | (_, v) :: items' => wf_node v ∧ all items'
         end) items
  end.

(** Parsing the serialization of [items] in front of [rest], with [acc]
    parsed so far, is parsing [rest] with [items] added to [acc]. *)
Definition reads_back_items (items : Dict) : Prop :=
  ∀ depth fuel top rest acc,
    wf_node (Section (acc ++ items)) →
    String.length (Vdf.serialize_items depth items +:+ rest) < fuel →
    Vdf.parse_items fuel top (Vdf.serialize_items depth items +:+ rest) acc =
      Vdf.parse_items fuel top rest (acc ++ items).

(** The same for one entry. *)
Definition reads_back_entry (value : Node) : Prop :=
  ∀ depth key fuel top rest acc,
    wf_node (Section (acc ++ [(key, value)])) →
    String.length (Vdf.serialize_entry depth key value +:+ rest) < fuel →
    Vdf.parse_items fuel top (Vdf.serialize_entry depth key value +:+ rest) acc =
      Vdf.parse_items fuel top rest (acc ++ [(key, value)]).

(** Modelled from the spec: [vdf.load] on a file's text, as [Parse] of the
    missing [vdf] package; a parse error is the package's [SyntaxError]. *)
Definition vdf_load_model (text : string) : Exn + Node :=
  match Vdf.Parse text with
  | inl _ => inl SyntaxError
  | inr d => inr (Section d)
  end.

(** Modelled from the spec: [vdf.dump(..., pretty=True)] as [Serialize] of
    the missing [vdf] package.  The method only ever dumps a document that
    [vdf.load] returned, which is a dict. *)
Definition vdf_dump_model (data : Node) : string :=
  match data with
  | Section d => Vdf.Serialize d
  | Leaf _ => ""
  end.

(** ** A sample installation *)

(** The configuration of the user with local id "1", named "alice", with the
    given section of apps. *)
Definition config_of (apps : Dict) : Dict :=
  [("UserLocalConfigStore",
    Section
      [("friends", Section [("1", Section [("name", Leaf "alice")])]);
       ("Software",
        Section [("Valve", Section [("Steam", Section [("apps", Section apps)])])])])].

Definition SAMPLE_DIR : string := "/home/alice/.steam/steam/userdata".

(** The window after start-up with "alice" chosen, the given entry text and
    check box, and alice's configuration file holding the given apps. *)
Definition world_of (apps : Dict) (new_option : string) (overwrite : bool)
    : World :=
  mkWorld
    (mkMainWindow {["1" := Section (config_of apps)]} {["alice" := "1"]}
                  "alice" NoUserSelected overwrite new_option)
    {[get_config_file_path SAMPLE_DIR "1" := Vdf.Serialize (config_of apps)]}
    [].

(** ** Notions the properties are stated with *)

#[export] Instance Node_eq_dec : EqDecision Node.
Proof.
  refine (fix go (x y : Node) {struct x} : Decision (x = y) :=
    match x, y with
    | Leaf s, Leaf t => cast_if (decide (s = t))
    | Section l, Section k =>
        cast_if (@list_eq_dec _ (@prod_eq_dec _ _ _ go) l k)
    | _, _ => right _
    end); abstract congruence.
Defined.

(** What the loop prints for one app: its id and its options, when new
    options are given and the app has other ones. *)
Definition advisory (new_option : string) (kv : string * Node) : list Advisory :=
  match kv.2 with
  | Section fields =>
      match PyDict.get LaunchOptions fields with
      | Some ops =>
          if truthy new_option && differs ops new_option then [(kv.1, ops)]
          else []
      | None => []
      end
  | Leaf _ => []
  end.

(** An app stripped of every field but "LaunchOptions". *)
Definition launch_options_only (kv : string * Node) : string * Node :=
  (kv.1,
   match kv.2 with
   | Section fields => Section (filter (λ e, e.1 = LaunchOptions) fields)
   | Leaf s => Leaf s
   end).

(** The fields of an app other than "LaunchOptions" are, in order, the same
    before and after. *)
Definition same_other_fields (before after : Node) : Prop :=
  match before, after with
  | Section fields, Section fields' =>
      PyDict.others LaunchOptions fields' = PyDict.others LaunchOptions fields
  | Leaf s, Leaf s' => s' = s
  | _, _ => False
  end.

(** An app is as it was, or lost its entry under "LaunchOptions", or gained
    one as its last field. *)
Definition touched_at_launch_options (before after : Node) : Prop :=
  after = before ∨
  (∃ fields,
     before = Section fields ∧
     after = Section (PyDict.del LaunchOptions fields)) ∨
  (∃ fields v,
     before = Section fields ∧
     PyDict.get LaunchOptions fields = None ∧
     after = Section (fields ++ [(LaunchOptions, v)])).

(** The number of apps whose entry under "LaunchOptions" is not what it was:
    added, removed, or holding another value. *)
Definition changed_apps (before after : Dict) : nat :=
  length (filter (λ p, launch_options p.1.2 ≠ launch_options p.2.2)
                 (zip before after)).

(** The file writes among the events: path and content, oldest first. *)
Definition file_writes (evs : list Event) : list (string * string) :=
  omap (λ ev, match ev with
              | EvFileWrite path content => Some (path, content)
              | _ => None
              end) evs.

(** A computation that touches no file. *)
Definition keeps_files {A} (m : M A) : Prop :=
  ∀ w, files (m w).1 = files w ∧
       file_writes (events (m w).1) = file_writes (events w).

(** Every user name the window knows leads to a loaded document. *)
Definition names_loaded (self : MainWindow) : Prop :=
  ∀ name loc,
    user_local_ids self !! name = Some loc → is_Some (user_datas self !! loc).

(** A computation that keeps [names_loaded]. *)
Definition keeps_names_loaded {A} (m : M A) : Prop :=
  ∀ w, names_loaded (win w) → names_loaded (win (m w).1).

(** Two paths part ways: after a common start they go on with different
    keys. *)
Definition diverge (p q : list string) : Prop :=
  ∃ common k1 k2 rest1 rest2,
    p = common ++ k1 :: rest1 ∧ q = common ++ k2 :: rest2 ∧ k1 ≠ k2.

(** The world once [load_user_config loc] has read the document [data] of
    the user named [name]: the name leads to [loc], and [loc] to [data]. *)
Definition loaded (loc name : string) (data : Node) (w : World) : World :=
  mkWorld
    (set_user_datas (<[loc := data]> (user_datas (win w)))
       (set_user_local_ids (<[name := loc]> (user_local_ids (win w))) (win w)))
    (files w) (events w).

Section SetOutcome.

Variable USERDATA_DIR : string.
Variable vdf_dump : Node → string.

(** What the Set button does once the file of the chosen user [loc] has been
    loaded as the document [data] with user name [name], written out: the
    exception of the lookup of the apps or of the loop with the world it
    leaves, or else the world after the message box, the file write and the
    refreshed statistics. *)
Definition set_outcome (loc name : string) (data : Node) (w : World)
    : World * (Exn + unit) :=
  let w1 := loaded loc name data w in
  match navigate APPS_PATH data with
  | inl e => (w1, inl e)
  | inr appconfs =>
      match items_of appconfs with
      | inl e => (w1, inl e)
      | inr apps =>
          let out := edit_apps (win w) apps in
          let doc := replace_at APPS_PATH (Section (apps_after out)) data in
          let self2 :=
            set_user_datas (<[loc := doc]> (user_datas (win w1))) (win w1) in
          let events2 := events w ++ (EvPrint <$> printed (state_after out)) in
          match raised out with
          | Some e => (mkWorld self2 (files w) events2, inl e)
          | None =>
              let n := altered (state_after out) in
              let stats :=
                GamesWithOptions
                  (length (apps_after out))
                  (length (filter (λ kv, has_launch_options kv.2 = true)
                                  (apps_after out))) in
              let path := get_config_file_path USERDATA_DIR loc in
              if decide (n = 0) then
                (mkWorld (set_statistics stats self2) (files w)
                         (events2 ++ [EvShowError "No changes made"]),
                 inr ())
              else
                (mkWorld (set_statistics stats self2)
                         (<[path := vdf_dump doc]> (files w))
                         (events2 ++ [EvFileWrite path (vdf_dump doc);
                                      EvShowInfo "Changes made" n]),
                 inr ())
          end
      end
  end.

End SetOutcome.

(** The world with other documents in the window's memory. *)
Definition with_user_datas (m : gmap string Node) (w : World) : World :=
  mkWorld (set_user_datas m (win w)) (files w) (events w).

(** The world with the Overwrite check box ticked or cleared. *)
Definition with_overwrite (v : bool) (w : World) : World :=
  mkWorld (set_overwrite v (win w)) (files w) (events w).

Section UserFiles.

Variable USERDATA_DIR : string.
Variable vdf_load : string → Exn + Node.

(** What the configuration file of the user [loc] holds, if [vdf.load]
    reads it and the document has a user name for [loc] under [friends]: that
    name and the document. *)
Definition user_document (fs : gmap string string) (loc : string)
    : option (string * Node) :=
  text ← fs !! get_config_file_path USERDATA_DIR loc;
  match vdf_load text with
  | inr data =>
      match navigate (NAME_PATH loc) data with
      | inr (Leaf name) => Some (name, data)
      | _ => None
      end
  | inl _ => None
  end.

(** The users among [found] whose file gives them the name [name], in the
    order of [found]. *)
Definition users_named (fs : gmap string string) (name : string)
    (found : list string) : list string :=
  filter (λ loc, fst <$> user_document fs loc = Some name) found.

End UserFiles.

(** * Properties *)

(** ** Python dicts *)

Module PyDictFacts.
Import PyDict.

Lemma contains_get k d : contains k d = bool_decide (is_Some (get k d)).
Proof.
  induction d as [|[k' v] d IH]; simpl; [done|].
  case_decide; [|done]. symmetry. apply bool_decide_eq_true. eauto.
Qed.

Lemma contains_true k d : contains k d = true ↔ is_Some (get k d).
Proof. rewrite contains_get. apply bool_decide_eq_true. Qed.

Lemma contains_false k d : contains k d = false ↔ get k d = None.
Proof.
  rewrite contains_get bool_decide_eq_false -eq_None_not_Some. done.
Qed.

Lemma get_set_eq k v d : get k (set k v d) = Some v.
Proof.
  induction d as [|[k' v'] d IH]; simpl.
  - by rewrite decide_True.
  - case_decide; simpl.
    + by rewrite decide_True.
    + by rewrite decide_False.
Qed.

Lemma get_set_ne k k' v d : k ≠ k' → get k' (set k v d) = get k' d.
Proof.
  intros Hne. induction d as [|[k0 v0] d IH]; simpl.
  - by rewrite decide_False.
  - destruct (decide (k0 = k)) as [->|]; simpl.
    + by rewrite !decide_False.
    + case_decide; done.
Qed.

Lemma get_del_eq k d : get k (del k d) = None.
Proof.
  unfold del. induction d as [|[k' v'] d IH]; [done|].
  rewrite filter_cons. simpl. case_decide; simpl; [|done].
  by rewrite decide_False.
Qed.

Lemma del_absent k d : get k d = None → del k d = d.
Proof.
  unfold del. induction d as [|[k' v'] d IH]; [done|]. simpl.
  case_decide; [done|]. intros Hd. rewrite filter_cons_True //.
  by rewrite IH.
Qed.

Lemma set_absent k v d : get k d = None → set k v d = d ++ [(k, v)].
Proof.
  induction d as [|[k' v'] d IH]; [done|]. simpl.
  case_decide; [done|]. intros Hd. by rewrite IH.
Qed.

Lemma others_set k v d : others k (set k v d) = others k d.
Proof.
  unfold others. induction d as [|[k' v'] d IH]; simpl.
  - rewrite filter_cons_False //. by intros [].
  - destruct (decide (k' = k)) as [->|].
    + rewrite !filter_cons_False //; by intros [].
    + rewrite !filter_cons_True //. by rewrite IH.
Qed.

Lemma others_del k d : others k (del k d) = others k d.
Proof.
  unfold others, del. induction d as [|[k' v'] d IH]; [done|].
  rewrite !filter_cons. simpl. case_decide; [|done].
  rewrite filter_cons_True //. by rewrite IH.
Qed.

Lemma keys_set k v d : keys (set k v d) ⊆ k :: keys d.
Proof.
  unfold keys. induction d as [|[k' v'] d IH]; simpl.
  - set_solver.
  - case_decide; simplify_eq/=; set_solver.
Qed.

Lemma wf_set k v d : wf d → wf (set k v d).
Proof.
  unfold wf. induction d as [|[k' v'] d IH]; simpl.
  - intros _. apply NoDup_singleton.
  - unfold keys in *. simpl. rewrite NoDup_cons. intros [Hnotin Hd].
    case_decide; simplify_eq/=.
    + by apply NoDup_cons.
    + apply NoDup_cons. split; [|by apply IH].
      intros Hin. apply (keys_set k v d) in Hin. set_solver.
Qed.

Lemma wf_del k d : wf d → wf (del k d).
Proof.
  unfold wf, keys, del. intros Hd.
  apply (sublist_NoDup _ _ Hd), fmap_sublist, sublist_filter.
Qed.

End PyDictFacts.

(** ** Trees of dicts *)

Lemma wf_section items :
  wf_node (Section items) ↔
  NoDup items.*1 ∧ Forall (λ kv, wf_node kv.2) items.
Proof.
  simpl. apply and_iff_compat_l.
  induction items as [|[k v] items IH]; [by split|].
  rewrite Forall_cons IH. done.
Qed.

Lemma Node_ind' (P : Node → Prop) :
  (∀ s, P (Leaf s)) →
  (∀ items, Forall (λ kv, P kv.2) items → P (Section items)) →
  ∀ n, P n.
Proof.
  intros Hleaf Hsec. fix IH 1. intros [s|items]; [apply Hleaf|].
  apply Hsec. induction items as [|[k v] items IHitems]; constructor; auto.
Qed.

Lemma get_None_not_key k (d : Dict) : PyDict.get k d = None ↔ k ∉ d.*1.
Proof.
  induction d as [|[k' v] d IH]; simpl.
  - split; [intros _; apply not_elem_of_nil|done].
  - rewrite not_elem_of_cons -IH. case_decide; naive_solver.
Qed.

Lemma Forall_set (P : string * Node → Prop) k v (d : Dict) :
  P (k, v) → Forall P d → Forall P (PyDict.set k v d).
Proof.
  intros Hkv. induction 1 as [|[k' v'] d Hx Hd IH]; simpl.
  - by constructor.
  - case_decide; constructor; auto.
Qed.

Lemma wf_node_set k v acc :
  wf_node v → wf_node (Section acc) → wf_node (Section (PyDict.set k v acc)).
Proof.
  rewrite !wf_section. intros Hv [Hnodup Hall].
  split; [by apply PyDictFacts.wf_set|by apply Forall_set].
Qed.

Lemma wf_node_del k acc :
  wf_node (Section acc) → wf_node (Section (PyDict.del k acc)).
Proof.
  rewrite !wf_section. intros [Hnodup Hall].
  split; [by apply PyDictFacts.wf_del|].
  apply Forall_forall. intros kv [_ Hin]%list_elem_of_filter.
  by apply (proj1 (Forall_forall _ _) Hall).
Qed.

(** ** The loop body, case by case *)

Section LoopBody.
Import PyDict PyDictFacts.
Context (new_option appid : string) (fields : Dict) (st : LoopState).

Lemma body_differs ops :
  truthy new_option = true →
  get LaunchOptions fields = Some ops →
  differs ops new_option = true →
  loop_body new_option appid (Section fields) st =
    inr (Section fields,
         mkLoopState (altered st) (printed st ++ [(appid, ops)])).
Proof.
  intros Hnew Hget Hne. unfold loop_body.
  rewrite (proj2 (contains_true _ _)) ?Hget ?Hnew ?Hne //.
Qed.

Lemma body_same ops :
  truthy new_option = true →
  get LaunchOptions fields = Some ops →
  differs ops new_option = false →
  loop_body new_option appid (Section fields) st = inr (Section fields, st).
Proof.
  intros Hnew Hget Hne. unfold loop_body.
  rewrite (proj2 (contains_true _ _)) ?Hget ?Hnew ?Hne //.
Qed.

Lemma body_erase ops :
  truthy new_option = false →
  get LaunchOptions fields = Some ops →
  loop_body new_option appid (Section fields) st =
    inr (Section (del LaunchOptions fields),
         mkLoopState (altered st + 1) (printed st)).
Proof.
  intros Hnew Hget. unfold loop_body.
  rewrite (proj2 (contains_true _ _)) ?Hget ?Hnew //.
Qed.

Lemma body_set :
  truthy new_option = true →
  get LaunchOptions fields = None →
  loop_body new_option appid (Section fields) st =
    inr (Section (set LaunchOptions (Leaf new_option) fields),
         mkLoopState (altered st + 1) (printed st)).
Proof.
  intros Hnew Hget. unfold loop_body.
  rewrite (proj2 (contains_false _ _)) ?Hnew //.
Qed.

Lemma body_nothing :
  truthy new_option = false →
  get LaunchOptions fields = None →
  loop_body new_option appid (Section fields) st = inr (Section fields, st).
Proof.
  intros Hnew Hget. unfold loop_body.
  rewrite (proj2 (contains_false _ _)) ?Hnew //.
Qed.

End LoopBody.

(** Case analysis on what the body does to an app's dict. *)
Ltac body_cases new_option fields :=
  let ops := fresh "ops" in
  let Hget := fresh "Hget" in
  let Hnew := fresh "Hnew" in
  let Hne := fresh "Hne" in
  destruct (PyDict.get LaunchOptions fields) as [ops|] eqn:Hget;
  destruct (truthy new_option) eqn:Hnew;
  [ destruct (differs ops new_option) eqn:Hne;
    [ rewrite (body_differs _ _ _ _ ops Hnew Hget Hne)
    | rewrite (body_same _ _ _ _ ops Hnew Hget Hne) ]
  | rewrite (body_erase _ _ _ _ ops Hnew Hget)
  | rewrite (body_set _ _ _ _ Hnew Hget)
  | rewrite (body_nothing _ _ _ _ Hnew Hget) ].

Lemma truthy_empty s : truthy s = false ↔ s = "".
Proof. destruct s; naive_solver. Qed.

Lemma differs_leaf s new_option :
  differs (Leaf s) new_option = false ↔ s = new_option.
Proof.
  simpl. rewrite negb_false_iff. apply String.eqb_eq.
Qed.

Lemma differs_false ops new_option :
  differs ops new_option = false ↔ ops = Leaf new_option.
Proof.
  destruct ops as [s|items]; [|done].
  rewrite differs_leaf. naive_solver.
Qed.

Lemma differs_true ops new_option :
  differs ops new_option = true ↔ ops ≠ Leaf new_option.
Proof.
  rewrite -differs_false. destruct (differs ops new_option); naive_solver.
Qed.

(** The body never fails on an app's dict. *)
Lemma body_section_ok new_option appid fields st :
  ∃ fields' st',
    loop_body new_option appid (Section fields) st = inr (Section fields', st').
Proof. body_cases new_option fields; eauto. Qed.

(** ** The loop as a whole *)

Section Loop.
Import PyDict PyDictFacts.
Implicit Types (apps : Dict) (st : LoopState).

(** The counter and the print-out only grow by what the body adds. *)
Lemma body_shift new_option appid appconf st :
  loop_body new_option appid appconf st =
    match loop_body new_option appid appconf (mkLoopState 0 []) with
    | inl e => inl e
    | inr (appconf', d) =>
        inr (appconf', mkLoopState (altered st + altered d)
                                   (printed st ++ printed d))
    end.
Proof.
  destruct st as [n out], appconf as [s|fields]; unfold loop_body; simpl.
  - repeat case_match; simplify_eq/=; rewrite ?Nat.add_0_r ?app_nil_r //.
  - repeat case_match; simplify_eq/=; rewrite ?Nat.add_0_r ?app_nil_r //.
Qed.

Lemma edit_loop_shift new_option apps st :
  edit_loop new_option apps st =
    let out := edit_loop new_option apps (mkLoopState 0 []) in
    mkLoopOut (apps_after out)
      (mkLoopState (altered st + altered (state_after out))
                   (printed st ++ printed (state_after out)))
      (raised out).
Proof.
  revert st. induction apps as [|[appid appconf] apps IH]; intros st; simpl.
  - destruct st. by rewrite Nat.add_0_r app_nil_r.
  - rewrite (body_shift _ _ _ st).
    destruct (loop_body _ _ _ (mkLoopState 0 [])) as [e|[appconf' d]]; simpl.
    + destruct st. by rewrite Nat.add_0_r app_nil_r.
    + rewrite (IH (mkLoopState _ _)) (IH d). simpl.
      by rewrite Nat.add_assoc app_assoc.
Qed.

(** The loop never adds, drops or moves an app. *)
Lemma edit_loop_keys new_option apps st :
  (apps_after (edit_loop new_option apps st)).*1 = apps.*1.
Proof.
  revert st. induction apps as [|[appid appconf] apps IH]; intros st; [done|].
  simpl. destruct (loop_body _ _ _ _) as [e|[appconf' st']]; [done|].
  simpl. f_equal. apply IH.
Qed.

Lemma edit_loop_length new_option apps st :
  length (apps_after (edit_loop new_option apps st)) = length apps.
Proof.
  rewrite -(length_fmap fst) edit_loop_keys. by rewrite length_fmap.
Qed.

(** On app dicts the loop runs to its end. *)
Lemma edit_loop_sections_ok new_option apps st :
  Forall (λ kv, is_section kv.2) apps →
  raised (edit_loop new_option apps st) = None ∧
  Forall (λ kv, is_section kv.2) (apps_after (edit_loop new_option apps st)).
Proof.
  intros Hall. revert st.
  induction Hall as [|[appid [s|fields]] apps Hsec Hall IH]; intros st;
    [done|done|].
  simpl. destruct (body_section_ok new_option appid fields st)
    as (fields' & st' & ->). simpl.
  destruct (IH st') as [? ?]. split; [done|]. by constructor.
Qed.

End Loop.

Section LoopPointwise.
Import PyDict PyDictFacts.
Implicit Types (apps : Dict) (st : LoopState).

(** Looping over [pre ++ post] is looping over [pre], then over [post]. *)
Lemma edit_loop_app new_option pre post st :
  edit_loop new_option (pre ++ post) st =
    let out1 := edit_loop new_option pre st in
    match raised out1 with
    | Some e => mkLoopOut (apps_after out1 ++ post) (state_after out1) (Some e)
    | None =>
        let out2 := edit_loop new_option post (state_after out1) in
        mkLoopOut (apps_after out1 ++ apps_after out2)
                  (state_after out2) (raised out2)
    end.
Proof.
  revert st. induction pre as [|[appid appconf] pre IH]; intros st; simpl.
  - by destruct (edit_loop new_option post st).
  - destruct (loop_body _ _ _ _) as [e|[appconf' st']]; simpl; [done|].
    rewrite IH. simpl. by destruct (raised (edit_loop new_option pre st')).
Qed.

(** Every app is, after the loop, either as it was or as one pass of the
    body left it. *)
Lemma edit_loop_lookup new_option apps st i appid appconf :
  apps !! i = Some (appid, appconf) →
  ∃ appconf',
    apps_after (edit_loop new_option apps st) !! i = Some (appid, appconf') ∧
    (appconf' = appconf ∨
     ∃ d, loop_body new_option appid appconf (mkLoopState 0 []) =
            inr (appconf', d)).
Proof.
  revert st i. induction apps as [|[k c] apps IH]; intros st i Hi; [done|].
  simpl. rewrite (body_shift _ _ _ st).
  destruct (loop_body new_option k c (mkLoopState 0 [])) as [e|[c' d]] eqn:Hb.
  - simpl. eauto.
  - destruct i as [|i]; simplify_eq/=; eauto.
Qed.

(** When the loop runs to its end, every app went through the body. *)
Lemma edit_loop_lookup_ok new_option apps st i appid appconf :
  raised (edit_loop new_option apps st) = None →
  apps !! i = Some (appid, appconf) →
  ∃ appconf' d,
    apps_after (edit_loop new_option apps st) !! i = Some (appid, appconf') ∧
    loop_body new_option appid appconf (mkLoopState 0 []) = inr (appconf', d).
Proof.
  revert st i. induction apps as [|[k c] apps IH]; intros st i Hok Hi; [done|].
  simpl in *. rewrite (body_shift _ _ _ st) in Hok |- *.
  destruct (loop_body new_option k c (mkLoopState 0 [])) as [e|[c' d]] eqn:Hb;
    [done|].
  destruct i as [|i]; simplify_eq/=; eauto.
Qed.

End LoopPointwise.

(** ** The Overwrite check box *)

(** C1 (evidence of the defect).  On the three apps of Scenario B, with new
    options "-x" and the Overwrite box checked, the loop leaves app "10" on
    "-a" and counts one altered app, not two: the body tests the module
    constant [OVERWRITE], which is [False], and never the check box. *)
Theorem scenario_B_checked_box_is_ignored :
  edit_apps (window "-x" true) scenario_apps =
    mkLoopOut
      [("10", Section [(LaunchOptions, Leaf "-a")]);
       ("20", Section [(LaunchOptions, Leaf "-x")]);
       ("30", Section [(LaunchOptions, Leaf "-x")])]
      (mkLoopState 1 [("10", Leaf "-a")])
      None.
Proof. reflexivity. Qed.

(** X1.  Ticking or clearing the Overwrite check box changes nothing of what
    the loop does: not the apps it leaves, not the counter, not the print-out,
    not the exception. *)
Theorem overwrite_box_is_never_read (v : bool) (self : MainWindow)
    (apps : Dict) :
  edit_apps (set_overwrite v self) apps = edit_apps self apps.
Proof. reflexivity. Qed.

(** Whatever the check box says, an app whose options differ from the new
    ones keeps them and is not counted. *)
Lemma differing_options_survive self appid fields ops st :
  truthy (ops_entry self) = true →
  PyDict.get LaunchOptions fields = Some ops →
  ops ≠ Leaf (ops_entry self) →
  loop_body (ops_entry self) appid (Section fields) st =
    inr (Section fields,
         mkLoopState (altered st) (printed st ++ [(appid, ops)])).
Proof.
  intros Hnew Hget Hne. apply body_differs; [done..|].
  by apply differs_true.
Qed.

(** Taking an uncounted, unchanged app out of the section changes no count. *)
Lemma uncounted_app_is_neutral new_option apps i appid appconf :
  apps !! i = Some (appid, appconf) →
  (∀ st, ∃ out, loop_body new_option appid appconf st =
                  inr (appconf, mkLoopState (altered st) out)) →
  altered (state_after (edit_loop new_option apps (mkLoopState 0 []))) =
  altered (state_after (edit_loop new_option (delete i apps) (mkLoopState 0 []))).
Proof.
  intros Hi Hbody.
  rewrite delete_take_drop -{1}(take_drop_middle apps i _ Hi).
  rewrite !edit_loop_app. simpl.
  destruct (raised (edit_loop new_option (take i apps) _)); [done|].
  simpl. destruct (Hbody (state_after (edit_loop new_option (take i apps)
    (mkLoopState 0 [])))) as [out ->]. simpl.
  rewrite edit_loop_shift.
  rewrite (edit_loop_shift _ _ (state_after _)). done.
Qed.

(** C2.  With the Overwrite box unchecked and new options given, an app that
    already has different launch options keeps them: one pass of the body
    returns its dict as it was and leaves the counter where it was; in the
    loop's result the app is unchanged, and the count is what it would be
    without that app.  On the three apps of Scenario A only app "20" is set and
    the count is 1. *)
Theorem existing_options_kept_without_overwrite
    (self : MainWindow) (apps : Dict) (i : nat)
    (appid : string) (fields : Dict) (ops : Node) :
  overwrite self = false →
  truthy (ops_entry self) = true →
  apps !! i = Some (appid, Section fields) →
  PyDict.get LaunchOptions fields = Some ops →
  ops ≠ Leaf (ops_entry self) →
  (∀ st, loop_body (ops_entry self) appid (Section fields) st =
           inr (Section fields,
                mkLoopState (altered st) (printed st ++ [(appid, ops)]))) ∧
  apps_after (edit_apps self apps) !! i = Some (appid, Section fields) ∧
  altered (state_after (edit_apps self apps)) =
    altered (state_after (edit_apps self (delete i apps))) ∧
  edit_apps (window "-x" false) scenario_apps =
    mkLoopOut
      [("10", Section [(LaunchOptions, Leaf "-a")]);
       ("20", Section [(LaunchOptions, Leaf "-x")]);
       ("30", Section [(LaunchOptions, Leaf "-x")])]
      (mkLoopState 1 [("10", Leaf "-a")])
      None.
Proof.
  intros _ Hnew Hi Hget Hne.
  pose proof (λ st, differing_options_survive self appid fields ops st
                      Hnew Hget Hne) as Hbody.
  split_and!; [done| | |done].
  - destruct (edit_loop_lookup (ops_entry self) apps (mkLoopState 0 []) i _ _ Hi)
      as (appconf' & Hlook & [->|[d Hd]]); [done|].
    rewrite Hbody in Hd. by simplify_eq.
  - apply (uncounted_app_is_neutral _ _ _ _ _ Hi). intros st.
    rewrite Hbody. eauto.
Qed.

(** C2, at Scenario A: app "10" holds "-a" while "-x" is asked for. *)
Lemma existing_options_kept_witness :
  apps_after (edit_apps (window "-x" false) scenario_apps) !! 0 =
    Some ("10", Section [(LaunchOptions, Leaf "-a")]).
Proof.
  apply (existing_options_kept_without_overwrite
           (window "-x" false) scenario_apps 0 "10"
           [(LaunchOptions, Leaf "-a")] (Leaf "-a"));
    [reflexivity | reflexivity | reflexivity | reflexivity | discriminate].
Defined.

(** ** Erasing: the entry is empty *)

Section Erase.
Import PyDict PyDictFacts.

(** With an empty entry the loop counts the apps that had launch options. *)
Lemma erase_count new_option apps st :
  truthy new_option = false →
  Forall (λ kv, is_section kv.2) apps →
  altered (state_after (edit_loop new_option apps st)) =
    altered st + length (filter (λ kv, is_Some (launch_options kv.2)) apps).
Proof.
  intros Hnew Hall. revert st.
  induction Hall as [|[appid [s|fields]] apps Hsec Hall IH]; intros st;
    [simpl; lia|done|].
  destruct (get LaunchOptions fields) as [ops|] eqn:Hget.
  - rewrite filter_cons_True; [|by rewrite /= Hget].
    rewrite /= (body_erase _ _ _ _ ops Hnew Hget) /= IH /=. lia.
  - rewrite filter_cons_False; [|rewrite /= Hget; by intros [? ?]].
    by rewrite /= (body_nothing _ _ _ _ Hnew Hget) /= IH.
Qed.

(** C3.  With the entry empty, whatever the Overwrite box says: one pass of
    the body removes "LaunchOptions" from an app that has it and counts the
    app, and leaves an app without it as it is, uncounted.  Over a section of
    app dicts the loop runs to its end, every app loses the key if it had it
    and is otherwise unchanged, and the count is the number of apps that had
    it.  When every app has the key, the count is the number of apps and no
    app retains the key. *)
Theorem erase_removes_launch_options (self : MainWindow) (apps : Dict) :
  ops_entry self = "" →
  (∀ appid fields ops st,
     get LaunchOptions fields = Some ops →
     loop_body (ops_entry self) appid (Section fields) st =
       inr (Section (del LaunchOptions fields),
            mkLoopState (altered st + 1) (printed st)) ∧
     get LaunchOptions (del LaunchOptions fields) = None) ∧
  (∀ appid fields st,
     get LaunchOptions fields = None →
     loop_body (ops_entry self) appid (Section fields) st =
       inr (Section fields, st)) ∧
  (Forall (λ kv, is_section kv.2) apps →
     raised (edit_apps self apps) = None ∧
     altered (state_after (edit_apps self apps)) =
       length (filter (λ kv, is_Some (launch_options kv.2)) apps) ∧
     ∀ i appid fields,
       apps !! i = Some (appid, Section fields) →
       apps_after (edit_apps self apps) !! i =
         Some (appid, Section (del LaunchOptions fields)) ∧
       (get LaunchOptions fields = None → del LaunchOptions fields = fields)) ∧
  (Forall (λ kv, is_Some (launch_options kv.2)) apps →
     raised (edit_apps self apps) = None ∧
     altered (state_after (edit_apps self apps)) = length apps ∧
     Forall (λ kv, is_section kv.2 ∧ launch_options kv.2 = None)
            (apps_after (edit_apps self apps))).
Proof.
  intros Hentry.
  assert (truthy (ops_entry self) = false) as Hnew by by rewrite Hentry.
  assert (∀ apps, Forall (λ kv, is_section kv.2) apps →
     raised (edit_apps self apps) = None ∧
     altered (state_after (edit_apps self apps)) =
       length (filter (λ kv, is_Some (launch_options kv.2)) apps) ∧
     ∀ i appid fields,
       apps !! i = Some (appid, Section fields) →
       apps_after (edit_apps self apps) !! i =
         Some (appid, Section (del LaunchOptions fields)) ∧
       (get LaunchOptions fields = None → del LaunchOptions fields = fields))
    as Hsections.
  { intros apps' Hall. unfold edit_apps.
    destruct (edit_loop_sections_ok (ops_entry self) apps' (mkLoopState 0 []) Hall)
      as [Hok _].
    split_and!; [done|by rewrite erase_count|].
    intros i appid fields Hi. split; [|apply del_absent].
    destruct (edit_loop_lookup_ok _ _ _ _ _ _ Hok Hi) as (c' & d & -> & Hb).
    destruct (get LaunchOptions fields) as [ops|] eqn:Hget.
    - rewrite (body_erase _ _ _ _ ops Hnew Hget) in Hb. by simplify_eq.
    - rewrite (body_nothing _ _ _ _ Hnew Hget) in Hb. simplify_eq.
      by rewrite del_absent. }
  split_and!.
  - intros appid fields ops st Hget. split; [|apply get_del_eq].
    by apply (body_erase _ _ _ _ ops).
  - intros appid fields st Hget. by apply body_nothing.
  - apply Hsections.
  - intros Hall.
    assert (Forall (λ kv, is_section kv.2) apps) as Hsec.
    { eapply Forall_impl; [exact Hall|]. intros [k [s|f]] [? ?]; done. }
    destruct (Hsections apps Hsec) as (Hok & Hcount & Hlook).
    split_and!; [done| |].
    + rewrite Hcount. f_equal. clear -Hall.
      induction Hall as [|kv apps Hkv Hall IH]; [done|].
      by rewrite filter_cons_True // IH.
    + apply Forall_lookup_2. intros i [appid c'] Hi'.
      assert (i < length apps) as Hlt.
      { apply lookup_lt_Some in Hi'.
        by rewrite /edit_apps edit_loop_length in Hi'. }
      destruct (lookup_lt_is_Some_2 _ _ Hlt) as [[k c] Hi].
      pose proof (proj1 (Forall_lookup _ _) Hsec i _ Hi) as Hc.
      destruct c as [s|fields]; [done|].
      destruct (Hlook i k fields Hi) as [Hi'' _].
      rewrite Hi'' in Hi'. simplify_eq/=. split; [done|]. apply get_del_eq.
Qed.

End Erase.

(** C3, on the two apps of the scenarios that have launch options. *)
Lemma erase_removes_launch_options_witness :
  altered (state_after (edit_apps (window "" true)
    [("10", Section [(LaunchOptions, Leaf "-a")]);
     ("30", Section [(LaunchOptions, Leaf "-x")])])) = 2.
Proof.
  refine (proj1 (proj2 (proj2 (proj2 (proj2
    (erase_removes_launch_options (window "" true)
       [("10", Section [(LaunchOptions, Leaf "-a")]);
        ("30", Section [(LaunchOptions, Leaf "-x")])]
       eq_refl))) _))).
  repeat constructor; by eexists.
Defined.

(** ** Setting: the entry is not empty *)

Section Fill.
Import PyDict PyDictFacts.

(** With new options given the loop counts the apps that had none. *)
Lemma fill_count new_option apps st :
  truthy new_option = true →
  Forall (λ kv, is_section kv.2) apps →
  altered (state_after (edit_loop new_option apps st)) =
    altered st + length (filter (λ kv, launch_options kv.2 = None) apps).
Proof.
  intros Hnew Hall. revert st.
  induction Hall as [|[appid [s|fields]] apps Hsec Hall IH]; intros st;
    [simpl; lia|done|].
  destruct (get LaunchOptions fields) as [ops|] eqn:Hget.
  - rewrite filter_cons_False; [|by rewrite /= Hget].
    destruct (differs ops new_option) eqn:Hne.
    + by rewrite /= (body_differs _ _ _ _ ops Hnew Hget Hne) /= IH.
    + by rewrite /= (body_same _ _ _ _ ops Hnew Hget Hne) /= IH.
  - rewrite filter_cons_True; [|by rewrite /= Hget].
    rewrite /= (body_set _ _ _ _ Hnew Hget) /= IH /=. lia.
Qed.

(** X2.  With new options in the entry, over a section of app dicts: the
    loop runs to its end; an app that has launch options keeps its dict as it is,
    and an app that has none gets the new options as the last field of its
    dict; the count is the number of apps that had none. *)
Theorem new_options_fill_the_gaps (self : MainWindow) (apps : Dict) :
  truthy (ops_entry self) = true →
  Forall (λ kv, is_section kv.2) apps →
  raised (edit_apps self apps) = None ∧
  altered (state_after (edit_apps self apps)) =
    length (filter (λ kv, launch_options kv.2 = None) apps) ∧
  ∀ i appid fields,
    apps !! i = Some (appid, Section fields) →
    apps_after (edit_apps self apps) !! i =
      Some (appid,
            Section (match get LaunchOptions fields with
                     | Some _ => fields
                     | None => fields ++ [(LaunchOptions, Leaf (ops_entry self))]
                     end)).
Proof.
  intros Hnew Hall. unfold edit_apps.
  destruct (edit_loop_sections_ok (ops_entry self) apps (mkLoopState 0 []) Hall)
    as [Hok _].
  split_and!; [done|by rewrite fill_count|].
  intros i appid fields Hi.
  destruct (edit_loop_lookup_ok _ _ _ _ _ _ Hok Hi) as (c' & d & -> & Hb).
  destruct (get LaunchOptions fields) as [ops|] eqn:Hget.
  - destruct (differs ops (ops_entry self)) eqn:Hne.
    + rewrite (body_differs _ _ _ _ ops Hnew Hget Hne) in Hb. by simplify_eq.
    + rewrite (body_same _ _ _ _ ops Hnew Hget Hne) in Hb. by simplify_eq.
  - rewrite (body_set _ _ _ _ Hnew Hget) in Hb. simplify_eq.
    by rewrite set_absent.
Qed.

End Fill.

(** X2, on the three apps of the scenarios: one app had no options. *)
Lemma new_options_fill_the_gaps_witness :
  altered (state_after (edit_apps (window "-x" false) scenario_apps)) = 1.
Proof.
  refine (proj1 (proj2
    (new_options_fill_the_gaps (window "-x" false) scenario_apps eq_refl _))).
  repeat constructor.
Defined.

(** X3.  Over app dicts the loop raises nothing; and with new options in
    the entry it runs to its end only over app dicts: a string where an app's
    dict should be stops it with a [TypeError]. *)
Theorem loop_fails_only_on_strings (self : MainWindow) (apps : Dict) :
  (Forall (λ kv, is_section kv.2) apps → raised (edit_apps self apps) = None) ∧
  (truthy (ops_entry self) = true →
   raised (edit_apps self apps) = None →
   Forall (λ kv, is_section kv.2) apps) ∧
  (∀ e, raised (edit_apps self apps) = Some e → e = TypeError).
Proof.
  unfold edit_apps. simpl. split_and!.
  - intros Hall. by apply edit_loop_sections_ok.
  - intros Hnew. generalize (mkLoopState 0 []).
    induction apps as [|[appid [s|fields]] apps IH]; intros st; [done|..].
    + rewrite /= /loop_body Hnew. by destruct (str_contains _ _).
    + simpl. destruct (body_section_ok (ops_entry self) appid fields st)
        as (fields' & st' & ->). simpl. intros Hok. constructor; [done|].
      by apply (IH st').
  - generalize (mkLoopState 0 []).
    induction apps as [|[appid [s|fields]] apps IH]; intros st e; [done|..].
    + rewrite /= /loop_body.
      destruct (str_contains _ _); [by intros [= <-]|].
      destruct (truthy _); [by intros [= <-]|]. apply IH.
    + simpl. destruct (body_section_ok (ops_entry self) appid fields st)
        as (fields' & st' & ->). simpl. apply IH.
Qed.

(** ** Dicts stay dicts *)

Lemma body_keeps_well_formed new_option appid appconf st appconf' st' :
  loop_body new_option appid appconf st = inr (appconf', st') →
  wf_node appconf → wf_node appconf'.
Proof.
  destruct appconf as [s|fields].
  - unfold loop_body. repeat case_match; intros; by simplify_eq.
  - body_cases new_option fields; intros; simplify_eq; try done.
    + by apply wf_node_del.
    + by apply wf_node_set.
Qed.

(** X4.  When every dict of the section of apps holds each of its keys once,
    at every level, so does every dict the loop leaves. *)
Theorem loop_keeps_keys_unique (self : MainWindow) (apps : Dict) :
  wf_node (Section apps) →
  wf_node (Section (apps_after (edit_apps self apps))).
Proof.
  rewrite !wf_section /edit_apps /= edit_loop_keys.
  intros [Hnodup Hall]. split; [done|].
  apply Forall_lookup_2. intros i [appid c'] Hi'.
  assert (i < length apps) as Hlt.
  { apply lookup_lt_Some in Hi'. by rewrite edit_loop_length in Hi'. }
  destruct (lookup_lt_is_Some_2 _ _ Hlt) as [[k c] Hi].
  pose proof (proj1 (Forall_lookup _ _) Hall i _ Hi) as Hc.
  destruct (edit_loop_lookup (ops_entry self) apps (mkLoopState 0 []) i _ _ Hi)
    as (c'' & Hlook & Hcase).
  rewrite Hlook in Hi'. simplify_eq/=.
  destruct Hcase as [->|[d Hd]]; [done|].
  by apply (body_keeps_well_formed _ _ _ _ _ _ Hd).
Qed.

(** X4, on the three apps of the scenarios. *)
Lemma loop_keeps_keys_unique_witness :
  wf_node (Section (apps_after (edit_apps (window "-x" false) scenario_apps))).
Proof.
  apply (loop_keeps_keys_unique (window "-x" false) scenario_apps).
  apply wf_section. split.
  - refine (bool_decide_unpack _ _). vm_compute. exact I.
  - repeat first [apply NoDup_nil_2 | apply NoDup_singleton | constructor].
Defined.

(** ** Running the loop again *)

Section Rerun.
Import PyDict PyDictFacts.

(** A second pass of the body over what a first pass left changes nothing and
    counts nothing. *)
Lemma body_twice new_option appid appconf st appconf' st' st2 :
  loop_body new_option appid appconf st = inr (appconf', st') →
  ∃ out, loop_body new_option appid appconf' st2 =
           inr (appconf', mkLoopState (altered st2) out).
Proof.
  destruct appconf as [s|fields].
  - unfold loop_body. repeat case_match; intros; simplify_eq.
    all: try congruence; destruct st2; eauto.
  - body_cases new_option fields; intros; simplify_eq.
    + rewrite (body_differs _ _ _ _ ops) //. eauto.
    + rewrite (body_same _ _ _ _ ops) //. destruct st2; eauto.
    + rewrite (body_nothing _ _ _ _ Hnew (get_del_eq _ _)).
      destruct st2; eauto.
    + rewrite (body_same _ _ _ _ (Leaf new_option) Hnew (get_set_eq _ _ _)
                 (proj2 (differs_false _ _) eq_refl)).
      destruct st2; eauto.
    + rewrite body_nothing //. destruct st2; eauto.
Qed.

(** After a run that reached its end, another run with the same entry
    reaches its end too, counts nothing and leaves every app as it is. *)
Lemma rerun_is_noop new_option apps st st2 :
  raised (edit_loop new_option apps st) = None →
  raised (edit_loop new_option (apps_after (edit_loop new_option apps st)) st2)
    = None ∧
  altered (state_after
    (edit_loop new_option (apps_after (edit_loop new_option apps st)) st2))
    = altered st2 ∧
  apps_after
    (edit_loop new_option (apps_after (edit_loop new_option apps st)) st2)
    = apps_after (edit_loop new_option apps st).
Proof.
  revert st st2. induction apps as [|[appid appconf] apps IH]; intros st st2;
    [done|].
  simpl. destruct (loop_body _ _ _ st) as [e|[appconf' st']] eqn:Hb; [done|].
  simpl. intros Hok.
  destruct (body_twice _ _ _ _ _ _ st2 Hb) as [out ->]. simpl.
  destruct (IH st' (mkLoopState (altered st2) out) Hok) as (-> & -> & ->).
  done.
Qed.

End Rerun.

(** C5.  With the Overwrite box checked and new options given, over a section
    of app dicts: the first run reaches its end, and a second run with the
    same entry reaches its end, counts zero altered apps and leaves every app
    as the first run left it. *)
Theorem second_overwrite_run_alters_nothing (self : MainWindow) (apps : Dict) :
  overwrite self = true →
  truthy (ops_entry self) = true →
  Forall (λ kv, is_section kv.2) apps →
  raised (edit_apps self apps) = None ∧
  raised (edit_apps self (apps_after (edit_apps self apps))) = None ∧
  altered (state_after (edit_apps self (apps_after (edit_apps self apps)))) = 0 ∧
  apps_after (edit_apps self (apps_after (edit_apps self apps))) =
    apps_after (edit_apps self apps).
Proof.
  intros _ _ Hall. unfold edit_apps.
  destruct (edit_loop_sections_ok (ops_entry self) apps (mkLoopState 0 []) Hall)
    as [Hok _].
  split; [done|]. by apply rerun_is_noop.
Qed.

(** C5, on the three apps of the scenarios with "-x" and the box checked. *)
Lemma second_overwrite_run_witness :
  altered (state_after (edit_apps (window "-x" true)
    (apps_after (edit_apps (window "-x" true) scenario_apps)))) = 0.
Proof.
  refine (proj1 (proj2 (proj2
    (second_overwrite_run_alters_nothing (window "-x" true) scenario_apps
       eq_refl eq_refl _)))).
  repeat constructor.
Defined.

(** ** Erasing twice *)

(** C6 (counterexample).  One app with launch options "-a", the entry empty
    and the Overwrite box unchecked: no app misses the key, yet the call
    counts one altered app and takes the key out of the app's dict. *)
Lemma erase_counts_the_removal :
  Forall (λ kv, is_Some (launch_options kv.2))
         [("10", Section [(LaunchOptions, Leaf "-a")])] ∧
  altered (state_after (edit_apps (window "" false)
    [("10", Section [(LaunchOptions, Leaf "-a")])])) = 1 ∧
  apps_after (edit_apps (window "" false)
    [("10", Section [(LaunchOptions, Leaf "-a")])]) = [("10", Section [])].
Proof. split_and!; [|done..]. repeat constructor. by eexists. Qed.

(** C6 (amended).  With the entry empty and the Overwrite box unchecked, over
    a section of app dicts: when every app lacks "LaunchOptions", the call
    counts zero, prints nothing and leaves the section as it is, so that a
    second call does the same; and after any first call, the second call
    counts zero, prints nothing and leaves the section as the first left
    it. *)
Theorem erase_twice (self : MainWindow) (apps : Dict) :
  ops_entry self = "" →
  overwrite self = false →
  Forall (λ kv, is_section kv.2) apps →
  (Forall (λ kv, launch_options kv.2 = None) apps →
     edit_apps self apps = mkLoopOut apps (mkLoopState 0 []) None) ∧
  edit_apps self (apps_after (edit_apps self apps)) =
    mkLoopOut (apps_after (edit_apps self apps)) (mkLoopState 0 []) None.
Proof.
  intros Hentry _ Hsec.
  assert (truthy (ops_entry self) = false) as Hnew by by rewrite Hentry.
  assert (∀ apps, Forall (λ kv, is_section kv.2) apps →
            Forall (λ kv, launch_options kv.2 = None) apps →
            edit_apps self apps = mkLoopOut apps (mkLoopState 0 []) None)
    as Hnoop.
  { clear apps Hsec. intros apps Hsec Hnone. unfold edit_apps. simpl.
    generalize (mkLoopState 0 []). intros st.
    induction Hsec as [|[appid [s|fields]] apps Hc Hsec IH]; [done|done|].
    apply Forall_cons in Hnone as [Hget Hnone]. simpl in *.
    by rewrite (body_nothing _ _ _ _ Hnew Hget) /= IH. }
  split; [by apply Hnoop|].
  destruct (edit_loop_sections_ok (ops_entry self) apps (mkLoopState 0 []) Hsec)
    as [Hok Hsec'].
  apply Hnoop; [done|].
  apply Forall_lookup_2. intros i [appid c'] Hi'.
  assert (i < length apps) as Hlt.
  { apply lookup_lt_Some in Hi'.
    by rewrite /edit_apps edit_loop_length in Hi'. }
  destruct (lookup_lt_is_Some_2 _ _ Hlt) as [[k c] Hi].
  pose proof (proj1 (Forall_lookup _ _) Hsec i _ Hi) as Hc.
  destruct c as [s|fields]; [done|].
  destruct (edit_loop_lookup_ok _ _ _ _ _ _ Hok Hi) as (c'' & d & Hi'' & Hb).
  unfold edit_apps in Hi'. simpl in Hi'. rewrite Hi'' in Hi'. simplify_eq/=.
  destruct (PyDict.get LaunchOptions fields) as [ops|] eqn:Hget.
  - rewrite (body_erase _ _ _ _ ops Hnew Hget) in Hb. simplify_eq/=.
    apply PyDictFacts.get_del_eq.
  - rewrite (body_nothing _ _ _ _ Hnew Hget) in Hb. by simplify_eq/=.
Qed.

(** C6 (amended), on an app without launch options and one with. *)
Lemma erase_twice_witness :
  edit_apps (window "" false)
    (apps_after (edit_apps (window "" false)
       [("20", Section []); ("30", Section [(LaunchOptions, Leaf "-x")])])) =
  mkLoopOut
    (apps_after (edit_apps (window "" false)
       [("20", Section []); ("30", Section [(LaunchOptions, Leaf "-x")])]))
    (mkLoopState 0 []) None.
Proof.
  refine (proj2 (erase_twice (window "" false)
    [("20", Section []); ("30", Section [(LaunchOptions, Leaf "-x")])]
    eq_refl eq_refl _)).
  repeat constructor.
Defined.

(** ** What the loop leaves alone *)

Section Frame.
Import PyDict PyDictFacts.

Lemma same_other_fields_refl appconf : same_other_fields appconf appconf.
Proof. by destruct appconf. Qed.

Lemma body_frame new_option appid appconf st appconf' st' :
  loop_body new_option appid appconf st = inr (appconf', st') →
  same_other_fields appconf appconf'.
Proof.
  destruct appconf as [s|fields].
  - unfold loop_body. repeat case_match; intros; by simplify_eq.
  - body_cases new_option fields; intros; simplify_eq; simpl;
      rewrite ?others_del ?others_set //.
Qed.

Lemma body_touches new_option appid appconf st appconf' st' :
  loop_body new_option appid appconf st = inr (appconf', st') →
  touched_at_launch_options appconf appconf'.
Proof.
  unfold touched_at_launch_options. destruct appconf as [s|fields].
  - unfold loop_body. repeat case_match; intros; simplify_eq; by left.
  - body_cases new_option fields; intros; simplify_eq; eauto.
    right. right. eexists _, _. split_and!; [done..|]. by rewrite set_absent.
Qed.

Lemma body_printed new_option appid appconf st appconf' st' :
  loop_body new_option appid appconf st = inr (appconf', st') →
  printed st' = printed st ++ advisory new_option (appid, appconf).
Proof.
  destruct appconf as [s|fields]; unfold advisory; simpl.
  - unfold loop_body. repeat case_match; intros; simplify_eq.
    all: by rewrite app_nil_r.
  - body_cases new_option fields; intros; simplify_eq; simpl;
      rewrite ?Hne ?app_nil_r //.
Qed.

Lemma edit_loop_printed new_option apps st :
  printed (state_after (edit_loop new_option apps st))
    `prefix_of` printed st ++ (apps ≫= advisory new_option) ∧
  (raised (edit_loop new_option apps st) = None →
   printed (state_after (edit_loop new_option apps st)) =
     printed st ++ (apps ≫= advisory new_option)).
Proof.
  revert st. induction apps as [|[appid appconf] apps IH]; intros st; simpl.
  - by rewrite app_nil_r.
  - destruct (loop_body _ _ _ _) as [e|[appconf' st']] eqn:Hb; simpl.
    + split; [|done]. by apply prefix_app_r.
    + apply body_printed in Hb. destruct (IH st') as [Hpre Heq].
      rewrite Hb -app_assoc in Hpre Heq. done.
Qed.

Lemma get_launch_options_only fields :
  get LaunchOptions (filter (λ e, e.1 = LaunchOptions) fields) =
  get LaunchOptions fields.
Proof.
  induction fields as [|[k v] fields IH]; [done|].
  rewrite filter_cons. simpl. case_decide; simpl.
  - by rewrite decide_True.
  - done.
Qed.

(** The body's verdict depends on the app's dict only through its entry
    under "LaunchOptions". *)
Lemma body_reads_launch_options_only new_option kv st :
  match loop_body new_option kv.1 kv.2 st,
        loop_body new_option (launch_options_only kv).1
                  (launch_options_only kv).2 st with
  | inl e, inl e' => e = e'
  | inr (_, st1), inr (_, st2) => st1 = st2
  | _, _ => False
  end.
Proof.
  destruct kv as [appid [s|fields]]; simpl.
  - by destruct (loop_body _ _ _ _) as [?|[? ?]].
  - pose proof (get_launch_options_only fields) as Hsame.
    body_cases new_option fields.
    + by rewrite (body_differs _ _ _ _ ops) // Hsame.
    + by rewrite (body_same _ _ _ _ ops) // Hsame.
    + by rewrite (body_erase _ _ _ _ ops) // Hsame.
    + by rewrite body_set // Hsame.
    + by rewrite body_nothing // Hsame.
Qed.

Lemma edit_loop_reads_launch_options_only new_option apps st :
  state_after (edit_loop new_option (launch_options_only <$> apps) st) =
    state_after (edit_loop new_option apps st) ∧
  raised (edit_loop new_option (launch_options_only <$> apps) st) =
    raised (edit_loop new_option apps st).
Proof.
  revert st. induction apps as [|[appid appconf] apps IH]; intros st; [done|].
  pose proof (body_reads_launch_options_only new_option (appid, appconf) st)
    as Hb.
  rewrite fmap_cons. cbn [edit_loop launch_options_only fst snd] in *.
  destruct (loop_body new_option appid appconf st) as [e|[c1 st1]];
    destruct (loop_body new_option appid _ st) as [e'|[c2 st2]];
    try done; simplify_eq/=; [done|]. apply IH.
Qed.

End Frame.

(** C8.  Whatever the entry and the Overwrite box hold: the loop keeps the
    apps' ids in their stored order; every app keeps, in order and with all
    that is below them, its fields other than "LaunchOptions", and is either
    as it was, or without its entry under "LaunchOptions", or with one added
    as its last field; what is printed follows the stored order of the apps
    (it is the apps' advisories in that order, cut short only where an
    exception stopped the loop); and the counter, the print-out and the
    exception are the same on the section whose apps are stripped of every
    other field, so nothing but the entry under "LaunchOptions" is read. *)
Theorem edit_frame (self : MainWindow) (apps : Dict) :
  (apps_after (edit_apps self apps)).*1 = apps.*1 ∧
  (∀ i appid appconf,
     apps !! i = Some (appid, appconf) →
     ∃ appconf',
       apps_after (edit_apps self apps) !! i = Some (appid, appconf') ∧
       same_other_fields appconf appconf' ∧
       touched_at_launch_options appconf appconf') ∧
  printed (state_after (edit_apps self apps))
    `prefix_of` (apps ≫= advisory (ops_entry self)) ∧
  (raised (edit_apps self apps) = None →
   printed (state_after (edit_apps self apps)) =
     apps ≫= advisory (ops_entry self)) ∧
  state_after (edit_apps self (launch_options_only <$> apps)) =
    state_after (edit_apps self apps) ∧
  raised (edit_apps self (launch_options_only <$> apps)) =
    raised (edit_apps self apps).
Proof.
  unfold edit_apps. simpl. split_and!.
  - apply edit_loop_keys.
  - intros i appid appconf Hi.
    destruct (edit_loop_lookup (ops_entry self) apps (mkLoopState 0 []) i _ _ Hi)
      as (appconf' & Hlook & [->|[d Hd]]).
    + eexists. split_and!; [done|apply same_other_fields_refl|by left].
    + eexists. split_and!; [done|by eapply body_frame|by eapply body_touches].
  - apply (edit_loop_printed _ _ (mkLoopState 0 [])).
  - apply (edit_loop_printed _ _ (mkLoopState 0 [])).
  - apply edit_loop_reads_launch_options_only.
  - apply edit_loop_reads_launch_options_only.
Qed.

(** ** The counter counts the changes *)

Section Counter.
Import PyDict PyDictFacts.

Lemma changed_apps_refl apps : changed_apps apps apps = 0.
Proof.
  unfold changed_apps. induction apps as [|kv apps IH]; [done|].
  simpl. rewrite filter_cons_False //. by intros [].
Qed.

Lemma changed_apps_cons kv kv' apps apps' :
  changed_apps (kv :: apps) (kv' :: apps') =
    (if decide (launch_options kv.2 = launch_options kv'.2) then 0 else 1)
    + changed_apps apps apps'.
Proof.
  unfold changed_apps. simpl. rewrite filter_cons. simpl.
  destruct (decide (launch_options kv.2 = launch_options kv'.2)).
  - rewrite decide_False //. by intros [].
  - by rewrite decide_True.
Qed.

(** One pass either leaves the app and the counter alone, or changes the
    app's entry under "LaunchOptions" and adds one. *)
Lemma body_counts_change new_option appid appconf st appconf' st' :
  loop_body new_option appid appconf st = inr (appconf', st') →
  (appconf' = appconf ∧ altered st' = altered st) ∨
  (launch_options appconf' ≠ launch_options appconf ∧
   altered st' = altered st + 1).
Proof.
  destruct appconf as [s|fields].
  - unfold loop_body. repeat case_match; intros; simplify_eq. by left.
  - body_cases new_option fields; intros; simplify_eq; simpl; eauto.
    + right. by rewrite get_del_eq Hget.
    + right. by rewrite get_set_eq Hget.
Qed.

Lemma edit_loop_counts_changes new_option apps st :
  altered (state_after (edit_loop new_option apps st)) =
    altered st + changed_apps apps (apps_after (edit_loop new_option apps st)) ∧
  (altered (state_after (edit_loop new_option apps st)) = altered st →
   apps_after (edit_loop new_option apps st) = apps).
Proof.
  revert st. induction apps as [|[appid appconf] apps IH]; intros st; simpl.
  - split; [|done]. rewrite /changed_apps /=. lia.
  - destruct (loop_body _ _ _ _) as [e|[appconf' st']] eqn:Hb; simpl.
    + rewrite changed_apps_refl. split; [lia|done].
    + destruct (IH st') as [Hcount Hsame].
      rewrite changed_apps_cons. simpl.
      destruct (body_counts_change _ _ _ _ _ _ Hb) as [[-> Hst]|[Hne Hst]].
      * rewrite decide_True //. split; [lia|].
        intros Heq. rewrite Hsame //. lia.
      * rewrite decide_False; [|by intros ?]. split; [lia|]. lia.
Qed.

End Counter.

(** C10.  After the loop, the counter is the number of apps whose entry under
    "LaunchOptions" is not what it was before the loop (it was added,
    removed, or holds another value); and when the counter is zero, the apps
    are exactly what they were. *)
Theorem altered_counts_changed_apps (new_option : string) (apps : Dict) :
  altered (state_after (edit_loop new_option apps (mkLoopState 0 []))) =
    changed_apps apps
      (apps_after (edit_loop new_option apps (mkLoopState 0 []))) ∧
  (altered (state_after (edit_loop new_option apps (mkLoopState 0 []))) = 0 →
   apps_after (edit_loop new_option apps (mkLoopState 0 [])) = apps).
Proof. apply (edit_loop_counts_changes new_option apps (mkLoopState 0 [])). Qed.

(** ** Writing the file *)

Section MonadFacts.

Lemma bind_assoc {A B C} (m : M A) (f : A → M B) (g : B → M C) w :
  ((m ≫= f) ≫= g) w = (m ≫= (λ a, f a ≫= g)) w.
Proof.
  unfold mbind, M_bind. destruct (m w) as [w1 [e|a]]; done.
Qed.

Lemma bind_run {A B} (m : M A) (f : A → M B) w w' a :
  m w = (w', inr a) → (m ≫= f) w = f a w'.
Proof. intros Hm. by rewrite /mbind /M_bind Hm. Qed.

Lemma bind_raise {A B} (m : M A) (f : A → M B) w w' e :
  m w = (w', inl e) → (m ≫= f) w = (w', inl e).
Proof. intros Hm. by rewrite /mbind /M_bind Hm. Qed.

Lemma keeps_ret {A} (a : A) : keeps_files (mret a).
Proof. done. Qed.

Lemma keeps_raise {A} e : keeps_files (@raise A e).
Proof. done. Qed.

Lemma keeps_lift {A} (r : Exn + A) : keeps_files (lift r).
Proof. done. Qed.

Lemma keeps_gets {A} (f : MainWindow → A) : keeps_files (gets f).
Proof. done. Qed.

Lemma keeps_modify_win f : keeps_files (modify_win f).
Proof. done. Qed.

Lemma keeps_read_file path : keeps_files (read_file path).
Proof. intros w. unfold read_file. by destruct (files w !! path). Qed.

Lemma keeps_emit evs : file_writes evs = [] → keeps_files (emit evs).
Proof.
  intros Hevs w. simpl. split; [done|].
  by rewrite /file_writes omap_app -/(file_writes evs) Hevs app_nil_r.
Qed.

Lemma keeps_bind {A B} (m : M A) (f : A → M B) :
  keeps_files m → (∀ a, keeps_files (f a)) → keeps_files (m ≫= f).
Proof.
  intros Hm Hf w. unfold mbind, M_bind.
  destruct (Hm w) as [Hfiles Hwrites].
  destruct (m w) as [w1 [e|a]]; simpl in *; [done|].
  destruct (Hf a w1) as [-> ->]. done.
Qed.

Lemma file_writes_prints (advs : list Advisory) :
  file_writes (EvPrint <$> advs) = [].
Proof. induction advs; done. Qed.

End MonadFacts.

Ltac keeps_files :=
  repeat first
    [ apply keeps_ret | apply keeps_raise | apply keeps_lift
    | apply keeps_gets | apply keeps_modify_win | apply keeps_read_file
    | apply keeps_emit; first [ done | apply file_writes_prints ]
    | apply keeps_bind; [|intros ?]
    | progress case_match ].

Section MethodFacts.
Variable USERDATA_DIR : string.
Variable vdf_load : string → Exn + Node.
Variable vdf_dump : Node → string.

Lemma cur_loc_id_run w loc :
  user_local_ids (win w) !! user_choice (win w) = Some loc →
  cur_loc_id w = (w, inr loc).
Proof. intros Hloc. by rewrite /cur_loc_id /mbind /M_bind /gets /= Hloc. Qed.

Lemma user_data_run w loc data :
  user_datas (win w) !! loc = Some data →
  user_data loc w = (w, inr data).
Proof. intros Hd. by rewrite /user_data /mbind /M_bind /gets /= Hd. Qed.

Lemma cur_loc_id_keeps : keeps_files cur_loc_id.
Proof. unfold cur_loc_id. keeps_files. Qed.

Lemma user_data_keeps loc : keeps_files (user_data loc).
Proof. unfold user_data. keeps_files. Qed.

Lemma load_user_config_keeps loc :
  keeps_files (load_user_config USERDATA_DIR vdf_load loc).
Proof. unfold load_user_config. keeps_files. Qed.

Lemma cur_appconfs_keeps : keeps_files cur_appconfs.
Proof.
  unfold cur_appconfs.
  keeps_files; auto using cur_loc_id_keeps, user_data_keeps.
Qed.

Lemma refresh_statistics_keeps : keeps_files refresh_statistics.
Proof.
  unfold refresh_statistics.
  keeps_files; auto using cur_appconfs_keeps.
Qed.

Lemma run_loop_keeps : keeps_files run_loop.
Proof.
  unfold run_loop.
  keeps_files; auto using cur_loc_id_keeps, user_data_keeps.
Qed.

(** After the loop ran to its end, the window still knows the chosen user
    and holds that user's edited document. *)
Lemma run_loop_leaves_document w w1 st :
  run_loop w = (w1, inr st) →
  ∃ loc data,
    user_local_ids (win w1) !! user_choice (win w1) = Some loc ∧
    user_datas (win w1) !! loc = Some data.
Proof.
  unfold run_loop, cur_loc_id, user_data, gets, lift, modify_win, emit,
    mbind, M_bind, mret, M_ret, raise. simpl.
  destruct (user_local_ids (win w) !! user_choice (win w)) as [loc|] eqn:Hloc;
    [|done].
  destruct (user_datas (win w) !! loc) as [data|]; [|done].
  destruct (navigate APPS_PATH data) as [e|appconfs]; [done|].
  destruct (items_of appconfs) as [e|items]; [done|]. simpl.
  destruct (raised _); [done|]. intros [= <- <-]. simpl.
  eexists _, _. split; [done|]. apply lookup_insert_eq.
Qed.

(** C9.  Once the configuration is reloaded and the loop has run: if either
    raised, the method raises the same and no file is touched; if the loop
    ended with a zero counter, no file is written and the files are exactly
    what they were; and if it ended with a positive counter, there is
    exactly one write, which puts the dump of the edited document of the
    chosen user into that user's configuration file. *)
Theorem file_written_iff_altered (w : World) :
  match (loc ← cur_loc_id;
         load_user_config USERDATA_DIR vdf_load loc;;
         run_loop) w with
  | (w1, inl e) =>
      set_launch_options USERDATA_DIR vdf_load vdf_dump w = (w1, inl e) ∧
      files w1 = files w ∧
      file_writes (events w1) = file_writes (events w)
  | (w1, inr st) =>
      ∃ w2 r,
        set_launch_options USERDATA_DIR vdf_load vdf_dump w = (w2, r) ∧
        if decide (altered st = 0) then
          files w2 = files w ∧
          file_writes (events w2) = file_writes (events w)
        else
          ∃ loc data,
            user_local_ids (win w1) !! user_choice (win w1) = Some loc ∧
            user_datas (win w1) !! loc = Some data ∧
            files w2 =
              <[get_config_file_path USERDATA_DIR loc := vdf_dump data]>
                (files w) ∧
            file_writes (events w2) =
              file_writes (events w) ++
                [(get_config_file_path USERDATA_DIR loc, vdf_dump data)]
  end.
Proof.
  assert (keeps_files (loc ← cur_loc_id;
            load_user_config USERDATA_DIR vdf_load loc;; run_loop)) as Hpre.
  { keeps_files;
      auto using cur_loc_id_keeps, load_user_config_keeps, run_loop_keeps. }
  specialize (Hpre w).
  assert (set_launch_options USERDATA_DIR vdf_load vdf_dump w =
    ((loc ← cur_loc_id;
      load_user_config USERDATA_DIR vdf_load loc;; run_loop) ≫=
     (λ st,
       (if decide (altered st = 0) then emit [EvShowError "No changes made"]
        else
          loc ← cur_loc_id;
          loc' ← cur_loc_id;
          data ← user_data loc';
          write_file (get_config_file_path USERDATA_DIR loc) (vdf_dump data);;
          emit [EvShowInfo "Changes made" (altered st)]);;
       refresh_statistics)) w) as ->.
  { unfold set_launch_options, mbind, M_bind.
    destruct (cur_loc_id w) as [w0 [e|loc]]; [done|].
    destruct (load_user_config _ _ _ w0) as [w0' [e|[]]]; [done|].
    destruct (run_loop w0') as [w0'' [e|st]]; done. }
  destruct ((loc ← cur_loc_id;
      load_user_config USERDATA_DIR vdf_load loc;; run_loop) w)
    as [w1 [e|st]] eqn:Hrun; unfold mbind at 1, M_bind at 1; rewrite Hrun.
  { done. }
  simpl in Hpre. destruct Hpre as [Hfiles Hwrites].
  destruct (decide (altered st = 0)) as [Hzero|Hpos].
  - assert (keeps_files (emit [EvShowError "No changes made"];;
                         refresh_statistics)) as Hpost.
    { keeps_files; auto using refresh_statistics_keeps. }
    specialize (Hpost w1). rewrite Hfiles Hwrites in Hpost.
    destruct ((emit [EvShowError "No changes made"];; refresh_statistics) w1)
      as [w2 r]. eauto.
  - assert (∃ w1' st', run_loop w1' = (w1, inr st')) as (w1' & st' & Hloop).
    { revert Hrun. unfold mbind, M_bind.
      destruct (cur_loc_id w) as [w0 [e|loc]]; [done|].
      destruct (load_user_config _ _ _ w0) as [w0' [e|[]]]; [done|].
      destruct (run_loop w0') as [w0'' [e|st0]] eqn:Hl; [done|].
      intros [= <- <-]. eauto. }
    destruct (run_loop_leaves_document _ _ _ Hloop)
      as (loc & data & Hloc & Hdata).
    pose proof (refresh_statistics_keeps
      (mkWorld (win w1)
         (<[get_config_file_path USERDATA_DIR loc := vdf_dump data]> (files w1))
         ((events w1 ++
            [EvFileWrite (get_config_file_path USERDATA_DIR loc) (vdf_dump data)])
          ++ [EvShowInfo "Changes made" (altered st)]))) as [Hf Hw].
    simpl in Hf, Hw.
    erewrite bind_run; last first.
    { rewrite (bind_run _ _ _ _ _ (cur_loc_id_run _ _ Hloc)).
      rewrite (bind_run _ _ _ _ _ (cur_loc_id_run _ _ Hloc)).
      rewrite (bind_run _ _ _ _ _ (user_data_run _ _ _ Hdata)).
      reflexivity. }
    destruct (refresh_statistics _) as [w2 r]. simpl in *.
    eexists w2, r. split; [done|]. eexists loc, data.
    split_and!; [done|done|by rewrite Hf Hfiles|].
    rewrite Hw /file_writes !omap_app /= app_nil_r.
    by rewrite -/(file_writes (events w1)) Hwrites.
Qed.

(** Putting back what [navigate] found changes nothing. *)
Lemma replace_at_navigate path node found :
  navigate path node = inr found → replace_at path found node = node.
Proof.
  revert node. induction path as [|k path IH]; intros node.
  - by intros [= ->].
  - destruct node as [s|items]; [done|]. unfold navigate, replace_at.
    fold navigate replace_at.
    destruct (PyDict.get k items) as [v|] eqn:Hget; [|done].
    intros Hnav. f_equal. induction items as [|[k' v'] items IHitems]; [done|].
    simpl in *. case_decide; simplify_eq/=; [by rewrite IH|].
    by rewrite IHitems.
Qed.

Lemma load_user_config_run w loc text data name :
  files w !! get_config_file_path USERDATA_DIR loc = Some text →
  vdf_load text = inr data →
  navigate (NAME_PATH loc) data = inr (Leaf name) →
  load_user_config USERDATA_DIR vdf_load loc w =
    (mkWorld
       (set_user_datas (<[loc := data]> (user_datas (win w)))
          (set_user_local_ids (<[name := loc]> (user_local_ids (win w)))
             (win w)))
       (files w) (events w),
     inr ()).
Proof.
  intros Hfile Hload Hname.
  by rewrite /load_user_config /mbind /M_bind /read_file Hfile /lift Hload Hname.
Qed.

Lemma run_loop_run w loc data items :
  user_local_ids (win w) !! user_choice (win w) = Some loc →
  user_datas (win w) !! loc = Some data →
  navigate APPS_PATH data = inr (Section items) →
  run_loop w =
    (mkWorld
       (set_user_datas
          (<[loc := replace_at APPS_PATH
                      (Section (apps_after (edit_apps (win w) items))) data]>
             (user_datas (win w)))
          (win w))
       (files w)
       (events w ++ (EvPrint <$> printed (state_after (edit_apps (win w) items)))),
     match raised (edit_apps (win w) items) with
     | Some e => inl e
     | None => inr (state_after (edit_apps (win w) items))
     end).
Proof.
  intros Hloc Hdata Hnav. unfold run_loop.
  rewrite (bind_run _ _ w w (win w)); [|done].
  rewrite (bind_run _ _ _ _ _ (cur_loc_id_run _ _ Hloc)).
  rewrite (bind_run _ _ _ _ _ (user_data_run _ _ _ Hdata)).
  rewrite /lift /mbind /M_bind Hnav /=.
  by destruct (raised (edit_apps (win w) items)).
Qed.

Lemma refresh_statistics_run w loc data items :
  user_local_ids (win w) !! user_choice (win w) = Some loc →
  user_datas (win w) !! loc = Some data →
  navigate APPS_PATH data = inr (Section items) →
  refresh_statistics w =
    (mkWorld
       (set_statistics
          (GamesWithOptions (length items)
             (length (filter (λ kv, has_launch_options kv.2 = true) items)))
          (win w))
       (files w) (events w),
     inr ()).
Proof.
  intros Hloc Hdata Hnav.
  assert (cur_appconfs w = (w, inr (Section items))) as Happs.
  { unfold cur_appconfs.
    rewrite (bind_run _ _ _ _ _ (cur_loc_id_run _ _ Hloc)).
    rewrite (bind_run _ _ _ _ _ (user_data_run _ _ _ Hdata)).
    by rewrite /lift Hnav. }
  unfold refresh_statistics.
  rewrite (bind_run _ _ _ _ _ Happs).
  rewrite (bind_run _ _ w w items); [|done].
  by rewrite (bind_run _ _ _ _ _ Happs).
Qed.

(** C7.  Over a section without apps the loop visits nothing, counts zero
    altered apps, prints nothing, changes nothing and raises nothing; and
    when the chosen user's configuration loads and its section of apps is
    empty, the method returns without an exception: it writes no file, shows
    its "No changes made" message box and sets the statistics to zero games. *)
Theorem empty_section_report :
  (∀ self, edit_apps self [] = mkLoopOut [] (mkLoopState 0 []) None) ∧
  (∀ w loc text data name,
     user_local_ids (win w) !! user_choice (win w) = Some loc →
     files w !! get_config_file_path USERDATA_DIR loc = Some text →
     vdf_load text = inr data →
     navigate (NAME_PATH loc) data = inr (Leaf name) →
     navigate APPS_PATH data = inr (Section []) →
     ∃ w',
       set_launch_options USERDATA_DIR vdf_load vdf_dump w = (w', inr ()) ∧
       files w' = files w ∧
       events w' = events w ++ [EvShowError "No changes made"] ∧
       statistics (win w') = GamesWithOptions 0 0).
Proof.
  split; [done|].
  intros w loc text data name Hloc Hfile Hload Hname Happs.
  unfold set_launch_options.
  rewrite (bind_run _ _ _ _ _ (cur_loc_id_run _ _ Hloc)).
  rewrite (bind_run _ _ _ _ _ (load_user_config_run _ _ _ _ _ Hfile Hload Hname)).
  set (w1 := mkWorld _ _ _).
  assert (user_local_ids (win w1) !! user_choice (win w1) = Some loc) as Hloc1.
  { simpl. destruct (decide (name = user_choice (win w))) as [->|Hne].
    - apply lookup_insert_eq.
    - by rewrite lookup_insert_ne. }
  assert (user_datas (win w1) !! loc = Some data) as Hdata1
    by apply lookup_insert_eq.
  rewrite (bind_run _ _ _ _ _ (run_loop_run _ _ _ _ Hloc1 Hdata1 Happs)).
  cbn [edit_apps edit_loop apps_after state_after printed raised altered].
  rewrite (replace_at_navigate _ _ _ Happs).
  set (w2 := mkWorld _ _ _).
  assert (user_local_ids (win w2) !! user_choice (win w2) = Some loc) as Hloc2
    by done.
  assert (user_datas (win w2) !! loc = Some data) as Hdata2
    by apply lookup_insert_eq.
  destruct (decide (0 = 0)) as [_|?]; [|done].
  erewrite bind_run; [|reflexivity].
  erewrite refresh_statistics_run; [|done..].
  eexists. split_and!; [done|done| |done].
  by rewrite /= app_nil_r.
Qed.

End MethodFacts.

(** ** The wire format: parsing what was serialized *)

Module VdfFacts.
Import Vdf.

Lemma str_app_cons c s t : String c s +:+ t = String c (s +:+ t).
Proof. done. Qed.

Lemma str_app_nil_l t : EmptyString +:+ t = t.
Proof. done. Qed.

Lemma str_app_nil_r s : s +:+ EmptyString = s.
Proof. induction s as [|c s IH]; [done|]. by rewrite str_app_cons IH. Qed.

Lemma str_app_assoc s t u : (s +:+ t) +:+ u = s +:+ (t +:+ u).
Proof. induction s as [|c s IH]; [done|]. by rewrite !str_app_cons IH. Qed.

Lemma str_length_app s t :
  String.length (s +:+ t) = String.length s + String.length t.
Proof. induction s as [|c s IH]; [done|]. by rewrite str_app_cons /= IH. Qed.

(** *** Quoted strings *)

Lemma read_quoted_escape s rest :
  read_quoted (escape s +:+ String QUOTE rest) = Some (s, rest).
Proof.
  induction s as [|c s IH]; [done|]. cbn [escape].
  destruct (decide (c = QUOTE ∨ c = BACKSLASH)) as [Hc|Hc].
  - rewrite !str_app_cons. cbn [read_quoted].
    rewrite decide_True; [|done]. by rewrite IH.
  - rewrite str_app_cons. cbn [read_quoted].
    rewrite decide_False; [|naive_solver].
    rewrite decide_False; [|naive_solver]. by rewrite IH.
Qed.

Lemma read_quoted_shorter s str rest :
  read_quoted s = Some (str, rest) → String.length rest < String.length s.
Proof.
  remember (String.length s) as n eqn:Hn. revert s str rest Hn.
  induction (lt_wf n) as [n _ IH]. intros s str rest -> Hread.
  destruct s as [|c s]; [done|]. cbn [read_quoted] in Hread.
  destruct (decide (c = QUOTE)); [simplify_eq/=; lia|].
  destruct (decide (c = BACKSLASH)).
  - destruct s as [|c' s]; [done|].
    destruct (decide (c' = QUOTE ∨ c' = BACKSLASH)).
    + destruct (read_quoted s) as [[str' rest']|] eqn:Hs; simplify_eq/=.
      pose proof (IH (String.length s) ltac:(simpl; lia) s _ _ eq_refl Hs).
      lia.
    + destruct (read_quoted (String c' s)) as [[str' rest']|] eqn:Hs;
        simplify_eq/=.
      pose proof (IH (String.length (String c' s)) ltac:(simpl; lia)
                    _ _ _ eq_refl Hs). simpl in *. lia.
  - destruct (read_quoted s) as [[str' rest']|] eqn:Hs; simplify_eq/=.
    pose proof (IH (String.length s) ltac:(simpl; lia) s _ _ eq_refl Hs).
    lia.
Qed.

(** *** Tokens *)

Lemma next_token_space c s :
  is_space c = true → next_token (String c s) = next_token s.
Proof. intros Hc. by rewrite /= Hc. Qed.

Lemma next_token_indent depth s :
  next_token (indent depth +:+ s) = next_token s.
Proof. induction depth as [|depth IH]; [done|]. apply IH. Qed.

Lemma next_token_quoted str s :
  next_token (quoted str +:+ s) = inr (TString str, s).
Proof.
  rewrite /quoted str_app_cons str_app_assoc str_app_cons str_app_nil_l.
  cbn [next_token]. by rewrite read_quoted_escape.
Qed.

Lemma next_token_open s : next_token (String OPEN s) = inr (TOpen, s).
Proof. done. Qed.

Lemma next_token_close s : next_token (String CLOSE s) = inr (TClose, s).
Proof. done. Qed.

Lemma next_token_shorter s tok rest :
  next_token s = inr (tok, rest) →
  String.length rest ≤ String.length s ∧
  (tok ≠ TEnd → String.length rest < String.length s).
Proof.
  induction s as [|c s IH]; simpl.
  - intros [= <- <-]. done.
  - destruct (is_space c).
    { intros Htok. destruct (IH Htok) as [Hle Hlt]. split; [lia|].
      intros Hne. specialize (Hlt Hne). lia. }
    destruct (decide (c = QUOTE)).
    { destruct (read_quoted s) as [[str rest']|] eqn:Hs; [|done].
      intros [= <- <-]. apply read_quoted_shorter in Hs. split; [lia|]. lia. }
    destruct (decide (c = OPEN)); [intros [= <- <-]; split; lia|].
    destruct (decide (c = CLOSE)); [intros [= <- <-]; split; lia|done].
Qed.

(** *** The parser *)

Lemma parse_items_shorter fuel top s acc items rest :
  parse_items fuel top s acc = inr (items, rest) →
  String.length rest ≤ String.length s.
Proof.
  revert top s acc items rest.
  induction fuel as [|fuel IH]; intros top s acc items rest; [done|].
  cbn [parse_items].
  destruct (next_token s) as [err|[[key| | |] r1]] eqn:H1; [done|..].
  - apply next_token_shorter in H1 as [Hr1 _].
    destruct (next_token r1) as [err|[[value| | |] r2]] eqn:H2; [done|..].
    + apply next_token_shorter in H2 as [Hr2 _].
      intros Hp%IH. lia.
    + apply next_token_shorter in H2 as [Hr2 _].
      destruct (parse_items fuel false r2 []) as [err|[sub r3]] eqn:H3;
        [done|].
      apply IH in H3. intros Hp%IH. lia.
    + done.
    + done.
  - done.
  - apply next_token_shorter in H1 as [Hr1 _].
    destruct top; [done|]. intros [= <- <-]. done.
  - destruct top; [|done]. intros [= <- <-]. simpl. lia.
Qed.

(** Fuel beyond the length of the input changes nothing. *)
Lemma parse_items_fuel f1 f2 top s acc :
  String.length s < f1 → String.length s < f2 →
  parse_items f1 top s acc = parse_items f2 top s acc.
Proof.
  revert f2 top s acc.
  induction f1 as [|f1 IH]; intros [|f2] top s acc Hf1 Hf2; [lia..|].
  cbn [parse_items].
  destruct (next_token s) as [err|[[key| | |] r1]] eqn:H1; [done| |done..].
  apply next_token_shorter in H1 as [_ Hr1].
  specialize (Hr1 ltac:(done)).
  destruct (next_token r1) as [err|[[value| | |] r2]] eqn:H2; [done| | |done..].
  - apply next_token_shorter in H2 as [Hr2 _]. apply IH; lia.
  - apply next_token_shorter in H2 as [Hr2 _].
    rewrite (IH f2 false r2 []); [|lia..].
    destruct (parse_items f2 false r2 []) as [err|[sub r3]] eqn:H3; [done|].
    apply parse_items_shorter in H3. apply IH; lia.
Qed.

Lemma next_token_not_exhausted s n : next_token s ≠ inl (Exhausted, n).
Proof.
  induction s as [|c s IH]; [done|].
  cbn [next_token]. repeat case_match; done.
Qed.

Lemma parse_items_not_exhausted fuel top s acc n :
  String.length s < fuel →
  parse_items fuel top s acc ≠ inl (Exhausted, n).
Proof.
  revert top s acc.
  induction fuel as [|fuel IH]; intros top s acc Hfuel; [lia|].
  cbn [parse_items].
  destruct (next_token s) as [[why m]|[[key| | |] r1]] eqn:H1.
  - intros [= -> ->]. by apply next_token_not_exhausted in H1.
  - apply next_token_shorter in H1 as [_ Hr1].
    specialize (Hr1 ltac:(done)).
    destruct (next_token r1) as [[why m]|[[value| | |] r2]] eqn:H2;
      [|..|done|done].
    + intros [= -> ->]. by apply next_token_not_exhausted in H2.
    + apply next_token_shorter in H2 as [Hr2 _]. apply IH. lia.
    + apply next_token_shorter in H2 as [Hr2 _].
      destruct (parse_items fuel false r2 []) as [[why m]|[sub r3]] eqn:H3.
      * intros [= -> ->]. by apply IH in H3; [|lia].
      * apply parse_items_shorter in H3. apply IH. lia.
  - done.
  - by destruct top.
  - by destruct top.
Qed.

Lemma parse_items_skip f1 f2 top c s acc :
  is_space c = true →
  String.length (String c s) < f1 → String.length s < f2 →
  parse_items f1 top (String c s) acc = parse_items f2 top s acc.
Proof.
  intros Hc Hf1 Hf2. destruct f1 as [|f1]; [simpl in *; lia|].
  rewrite -(parse_items_fuel (S f1) f2 top s acc); [|simpl in *; lia|done].
  cbn [parse_items]. by rewrite next_token_space.
Qed.

Lemma parse_items_indent fuel top depth s acc :
  fuel ≠ 0 →
  parse_items fuel top (indent depth +:+ s) acc = parse_items fuel top s acc.
Proof.
  intros Hf. destruct fuel as [|fuel]; [done|].
  cbn [parse_items]. by rewrite next_token_indent.
Qed.

Lemma parse_items_close fuel depth rest acc :
  fuel ≠ 0 →
  parse_items fuel false (indent depth +:+ String CLOSE rest) acc =
    inr (acc, rest).
Proof.
  intros Hf. destruct fuel as [|fuel]; [done|].
  cbn [parse_items]. by rewrite next_token_indent next_token_close.
Qed.

(** *** What the parser builds *)

Lemma parse_items_wf fuel top s acc items rest :
  parse_items fuel top s acc = inr (items, rest) →
  wf_node (Section acc) → wf_node (Section items).
Proof.
  revert top s acc items rest.
  induction fuel as [|fuel IH]; intros top s acc items rest; [done|].
  cbn [parse_items].
  destruct (next_token s) as [err|[[key| | |] r1]]; [done|..].
  - destruct (next_token r1) as [err|[[value| | |] r2]]; [done| | |done..].
    + intros Hp Hacc. apply (IH _ _ _ _ _ Hp). by apply wf_node_set.
    + destruct (parse_items fuel false r2 []) as [err|[sub r3]] eqn:H3;
        [done|].
      intros Hp Hacc. apply (IH _ _ _ _ _ Hp). apply wf_node_set; [|done].
      apply (IH _ _ _ _ _ H3). apply wf_section. split; constructor.
  - done.
  - destruct top; [done|]. by intros [= <- <-].
  - destruct top; [|done]. by intros [= <- <-].
Qed.

(** *** Parsing what was serialized *)

Lemma serialize_section depth key items :
  serialize_entry depth key (Section items) =
    indent depth +:+ quoted key +:+ String NEWLINE EmptyString
      +:+ indent depth +:+ String OPEN (String NEWLINE EmptyString)
      +:+ serialize_items (S depth) items
      +:+ indent depth +:+ String CLOSE (String NEWLINE EmptyString).
Proof.
  cbn [serialize_entry]. do 6 f_equal.
  induction items as [|[k v] items IH]; [done|].
  cbn [serialize_items]. by rewrite -IH.
Qed.

Lemma wf_app_absent acc key value :
  wf_node (Section (acc ++ [(key, value)])) →
  PyDict.get key acc = None ∧ wf_node value ∧ wf_node (Section acc).
Proof.
  rewrite !wf_section fmap_app NoDup_app Forall_app Forall_singleton /=.
  intros [(Hacc & Hdisj & _) [Hall Hv]]. split_and!; [|done..].
  apply get_None_not_key. intros Hin. apply (Hdisj _ Hin). set_solver.
Qed.

Lemma reads_back_items_of_entries items :
  Forall (λ kv, reads_back_entry kv.2) items → reads_back_items items.
Proof.
  induction 1 as [|[k v] items Hentry _ IH];
    intros depth fuel top rest acc Hwf Hfuel.
  - by rewrite app_nil_r.
  - cbn [serialize_items] in *. rewrite str_app_assoc in Hfuel |- *.
    assert (acc ++ (k, v) :: items = (acc ++ [(k, v)]) ++ items) as Hsplit
      by by rewrite -assoc.
    rewrite Hsplit in Hwf |- *.
    rewrite Hentry; [| |done].
    + apply IH; [done|]. rewrite str_length_app in Hfuel. lia.
    + apply wf_section in Hwf as [Hnodup Hall]. apply wf_section.
      rewrite fmap_app in Hnodup. apply NoDup_app in Hnodup as [? _].
      apply Forall_app in Hall as [? _]. done.
Qed.

Lemma reads_back value : reads_back_entry value.
Proof.
  induction value as [s|sub IHsub] using Node_ind';
    intros depth key fuel top rest acc Hwf Hfuel;
    apply wf_app_absent in Hwf as (Habsent & Hvalue & Hacc).
  - cbn [serialize_entry] in *.
    rewrite !str_app_assoc !str_app_cons in Hfuel |- *.
    repeat (progress (rewrite ?str_length_app /= in Hfuel)).
    destruct fuel as [|fuel]; [lia|].
    set (rhs := parse_items (S fuel) top rest _). cbn [parse_items].
    rewrite next_token_indent next_token_quoted.
    rewrite next_token_space // next_token_quoted PyDictFacts.set_absent //.
    rewrite str_app_nil_l. subst rhs.
    apply parse_items_skip; [done|simpl; lia..].
  - rewrite serialize_section in Hfuel |- *.
    rewrite !str_app_assoc !str_app_cons !str_app_nil_l in Hfuel |- *.
    repeat (progress (rewrite ?str_length_app /= in Hfuel)).
    destruct fuel as [|fuel]; [lia|].
    set (rhs := parse_items (S fuel) top rest _). cbn [parse_items].
    rewrite next_token_indent next_token_quoted.
    rewrite next_token_space // next_token_indent next_token_open.
    rewrite (parse_items_skip fuel fuel);
      [|done|simpl; rewrite ?str_length_app /=; lia..].
    rewrite (reads_back_items_of_entries sub IHsub); [|done|].
    + rewrite parse_items_close; [|lia]. cbv iota beta.
      rewrite PyDictFacts.set_absent //. subst rhs.
      apply parse_items_skip; [done|simpl; lia..].
    + rewrite str_length_app /= str_length_app /=. lia.
Qed.

Lemma reads_back_all items : reads_back_items items.
Proof.
  apply reads_back_items_of_entries, Forall_forall. intros ? _. apply reads_back.
Qed.

Lemma Parse_Serialize d : wf_node (Section d) → Parse (Serialize d) = inr d.
Proof.
  intros Hwf. unfold Parse, Serialize.
  rewrite -{2}(str_app_nil_r (serialize_items 0 d)).
  rewrite reads_back_all; [done|done|rewrite str_app_nil_r; lia].
Qed.

Lemma Parse_wf b d : Parse b = inr d → wf_node (Section d).
Proof.
  unfold Parse.
  destruct (parse_items _ _ _ _) as [[why n]|[items rest]] eqn:Hp; [done|].
  intros [= <-]. apply (parse_items_wf _ _ _ _ _ _ Hp).
  apply wf_section. split; constructor.
Qed.

End VdfFacts.

(** The parser never runs out of fuel: [Parse] gives it more than the input
    has bytes. *)
Lemma Parse_never_exhausted b e :
  Vdf.Parse b = inl e → Vdf.reason e ≠ Vdf.Exhausted.
Proof.
  unfold Vdf.Parse.
  destruct (Vdf.parse_items _ _ _ _) as [[why n]|[items rest]] eqn:Hp; [|done].
  intros [= <-]. simpl. intros ->.
  by apply VdfFacts.parse_items_not_exhausted in Hp; [|lia].
Qed.

(** C4.  Whenever parsing a byte string [b] gives a document [d], parsing the
    serialization of [d] gives [d] again: the same keys, in the same order,
    with the same values, at every level. *)
Theorem Parse_roundtrip (b : string) (d : Dict) :
  Vdf.Parse b = inr d → Vdf.Parse (Vdf.Serialize d) = inr d.
Proof. intros Hp. by apply VdfFacts.Parse_Serialize, (VdfFacts.Parse_wf b). Qed.

(** C4, on a document whose input repeats a key, nests a Section and escapes
    a quote. *)
Lemma Parse_roundtrip_witness :
  Vdf.Parse (Vdf.Serialize
    [("name", Leaf "c"); ("apps", Section [("10", Leaf (String Vdf.QUOTE "q"))])]) =
  inr [("name", Leaf "c"); ("apps", Section [("10", Leaf (String Vdf.QUOTE "q"))])].
Proof.
  apply (Parse_roundtrip
    (Vdf.quoted "name" +:+ Vdf.quoted "a" +:+ " " +:+ Vdf.quoted "apps" +:+ "{"
       +:+ Vdf.quoted "10" +:+ Vdf.quoted (String Vdf.QUOTE "q") +:+ "}"
       +:+ Vdf.quoted "name" +:+ Vdf.quoted "c")).
  vm_compute. reflexivity.
Defined.

(** ** The method on the sample installation *)

(** C7, on alice's configuration with an empty section of apps. *)
Lemma empty_section_report_witness :
  ∃ w',
    set_launch_options SAMPLE_DIR vdf_load_model vdf_dump_model
      (world_of [] "-x" true) = (w', inr ()) ∧
    files w' = files (world_of [] "-x" true) ∧
    events w' = events (world_of [] "-x" true)
                  ++ [EvShowError "No changes made"] ∧
    statistics (win w') = GamesWithOptions 0 0.
Proof.
  apply (proj2 (empty_section_report SAMPLE_DIR vdf_load_model vdf_dump_model)
           (world_of [] "-x" true) "1"
           (Vdf.Serialize (config_of [])) (Section (config_of [])) "alice").
  - vm_compute. reflexivity.
  - vm_compute. reflexivity.
  - vm_compute. reflexivity.
  - vm_compute. reflexivity.
  - vm_compute. reflexivity.
Defined.

(** Scenario A through the whole method: the file is reloaded, app "10" is
    reported and kept, app "20" is set, and the document is written back. *)
Example scenario_A_method_run :
  let '(w', r) := set_launch_options SAMPLE_DIR vdf_load_model vdf_dump_model
                    (world_of scenario_apps "-x" false) in
  r = inr () ∧
  events w' =
    [EvPrint ("10", Leaf "-a");
     EvFileWrite (get_config_file_path SAMPLE_DIR "1")
       (Vdf.Serialize (config_of
          [("10", Section [(LaunchOptions, Leaf "-a")]);
           ("20", Section [(LaunchOptions, Leaf "-x")]);
           ("30", Section [(LaunchOptions, Leaf "-x")])]));
     EvShowInfo "Changes made" 1] ∧
  statistics (win w') = GamesWithOptions 3 3.
Proof. vm_compute. done. Qed.

(** Scenario B through the whole method: the checked Overwrite box changes
    nothing of the above. *)
Example scenario_B_method_run :
  let '(w', r) := set_launch_options SAMPLE_DIR vdf_load_model vdf_dump_model
                    (world_of scenario_apps "-x" true) in
  r = inr () ∧
  events w' =
    [EvPrint ("10", Leaf "-a");
     EvFileWrite (get_config_file_path SAMPLE_DIR "1")
       (Vdf.Serialize (config_of
          [("10", Section [(LaunchOptions, Leaf "-a")]);
           ("20", Section [(LaunchOptions, Leaf "-x")]);
           ("30", Section [(LaunchOptions, Leaf "-x")])]));
     EvShowInfo "Changes made" 1] ∧
  statistics (win w') = GamesWithOptions 3 3.
Proof. vm_compute. done. Qed.

(** ** Loading a user *)

Section LoadFacts.
Variable USERDATA_DIR : string.
Variable vdf_load : string → Exn + Node.

(** A load either raises and changes nothing, or returns after reading the
    user's file and registering the user. *)
Lemma load_user_config_cases loc w :
  (∃ e, load_user_config USERDATA_DIR vdf_load loc w = (w, inl e)) ∨
  (∃ text data name,
     files w !! get_config_file_path USERDATA_DIR loc = Some text ∧
     vdf_load text = inr data ∧
     navigate (NAME_PATH loc) data = inr (Leaf name) ∧
     load_user_config USERDATA_DIR vdf_load loc w =
       (loaded loc name data w, inr ())).
Proof.
  unfold load_user_config, mbind, M_bind, read_file, lift.
  destruct (files w !! _) as [text|] eqn:Hfile; [|eauto].
  destruct (vdf_load text) as [e|data] eqn:Hload; [eauto|].
  destruct (navigate _ data) as [e|[name|items]] eqn:Hname; [eauto| |eauto].
  right. eexists text, data, name. done.
Qed.


(** X6.  A load that returns forgets no user name: every name the window
    knew still leads to the user it led to, or now leads to the user just
    loaded; a name that led to the loaded user still does, so reloading the
    chosen user never changes who is chosen; and the documents of the other
    users are untouched. *)
Theorem load_forgets_no_name (loc : string) (w w' : World) :
  load_user_config USERDATA_DIR vdf_load loc w = (w', inr ()) →
  (∀ name0 loc0,
     user_local_ids (win w) !! name0 = Some loc0 →
     user_local_ids (win w') !! name0 = Some loc0 ∨
     user_local_ids (win w') !! name0 = Some loc) ∧
  (∀ name0,
     user_local_ids (win w) !! name0 = Some loc →
     user_local_ids (win w') !! name0 = Some loc) ∧
  (user_local_ids (win w) !! user_choice (win w) = Some loc →
   cur_loc_id w' = (w', inr loc)) ∧
  (∀ loc0, loc0 ≠ loc →
     user_datas (win w') !! loc0 = user_datas (win w) !! loc0).
Proof.
  intros Hload.
  destruct (load_user_config_cases loc w)
    as [[e He]|(text & data & name & _ & _ & _ & Hrun)];
    [congruence|].
  rewrite Hrun in Hload. injection Hload as <-.
  assert (∀ name0, user_local_ids (win w) !! name0 = Some loc →
            user_local_ids (win (loaded loc name data w)) !! name0 = Some loc)
    as Hsame.
  { intros name0 Hn. simpl.
    destruct (decide (name = name0)) as [->|Hne].
    - apply lookup_insert_eq.
    - by rewrite lookup_insert_ne. }
  split_and!.
  - intros name0 loc0 Hn. simpl.
    destruct (decide (name = name0)) as [->|Hne].
    + right. apply lookup_insert_eq.
    + left. by rewrite lookup_insert_ne.
  - done.
  - intros Hchoice. by apply cur_loc_id_run, (Hsame (user_choice (win w))).
  - intros loc0 Hne. simpl. by rewrite lookup_insert_ne.
Qed.

End LoadFacts.

(** ** Every known name leads to a loaded document *)

Section NamesLoaded.
Variable USERDATA_DIR : string.
Variable vdf_load : string → Exn + Node.
Variable vdf_dump : Node → string.

Lemma keeps_names_same_window {A} (m : M A) :
  (∀ w, win (m w).1 = win w) → keeps_names_loaded m.
Proof. intros Hm w Hw. by rewrite Hm. Qed.

Lemma keeps_names_modify f :
  (∀ self, names_loaded self → names_loaded (f self)) →
  keeps_names_loaded (modify_win f).
Proof. intros Hf w Hw. by apply Hf. Qed.

Lemma keeps_names_bind {A B} (m : M A) (f : A → M B) :
  keeps_names_loaded m → (∀ a, keeps_names_loaded (f a)) →
  keeps_names_loaded (m ≫= f).
Proof.
  intros Hm Hf w Hw. specialize (Hm w Hw). unfold mbind, M_bind.
  destruct (m w) as [w1 [e|a]]; [done|]. by apply Hf.
Qed.

Lemma names_loaded_insert_data loc data self :
  names_loaded self →
  names_loaded (set_user_datas (<[loc := data]> (user_datas self)) self).
Proof.
  intros Hself name loc0 Hname. simpl in *.
  apply lookup_insert_is_Some. destruct (decide (loc = loc0)); [by left|].
  right. split; [done|]. by apply (Hself name).
Qed.

Lemma names_loaded_statistics v self :
  names_loaded self → names_loaded (set_statistics v self).
Proof. done. Qed.

Lemma cur_loc_id_same_window w : win (cur_loc_id w).1 = win w.
Proof.
  unfold cur_loc_id, mbind, M_bind, gets. simpl.
  by destruct (user_local_ids (win w) !! user_choice (win w)).
Qed.

Lemma user_data_same_window loc w : win (user_data loc w).1 = win w.
Proof.
  unfold user_data, mbind, M_bind, gets. simpl.
  by destruct (user_datas (win w) !! loc).
Qed.

Lemma load_keeps_names_loaded loc :
  keeps_names_loaded (load_user_config USERDATA_DIR vdf_load loc).
Proof.
  intros w Hw.
  destruct (load_user_config_cases USERDATA_DIR vdf_load loc w)
    as [[e ->]|(text & data & name & _ & _ & _ & ->)]; [done|].
  intros name0 loc0. simpl. intros Hname. apply lookup_insert_is_Some.
  destruct (decide (loc = loc0)) as [|Hne]; [by left|]. right.
  split; [done|]. apply (Hw name0).
  destruct (decide (name = name0)) as [->|Hne'].
  - rewrite lookup_insert_eq in Hname. congruence.
  - by rewrite lookup_insert_ne in Hname.
Qed.

Lemma cur_appconfs_same_window w : win (cur_appconfs w).1 = win w.
Proof.
  unfold cur_appconfs, mbind, M_bind.
  pose proof (cur_loc_id_same_window w) as H1.
  destruct (cur_loc_id w) as [w1 [e|loc]]; [done|].
  pose proof (user_data_same_window loc w1) as H2.
  destruct (user_data loc w1) as [w2 [e|data]]; simpl in *; [congruence|].
  unfold lift. simpl. congruence.
Qed.

Lemma refresh_keeps_names_loaded : keeps_names_loaded refresh_statistics.
Proof.
  unfold refresh_statistics.
  repeat first
    [ apply keeps_names_bind; [|intros ?]
    | apply keeps_names_same_window; first
        [ apply cur_appconfs_same_window | done ]
    | apply keeps_names_modify, names_loaded_statistics
    | progress case_match ].
Qed.

Lemma run_loop_keeps_names_loaded : keeps_names_loaded run_loop.
Proof.
  unfold run_loop.
  repeat first
    [ apply keeps_names_bind; [|intros ?]
    | apply keeps_names_same_window; first
        [ apply cur_loc_id_same_window | apply user_data_same_window | done ]
    | apply keeps_names_modify, names_loaded_insert_data
    | progress case_match ].
Qed.

Lemma set_launch_options_keeps_names_loaded :
  keeps_names_loaded (set_launch_options USERDATA_DIR vdf_load vdf_dump).
Proof.
  unfold set_launch_options.
  repeat first
    [ apply load_keeps_names_loaded
    | apply run_loop_keeps_names_loaded
    | apply refresh_keeps_names_loaded
    | apply keeps_names_bind; [|intros ?]
    | apply keeps_names_same_window; first
        [ apply cur_loc_id_same_window | apply user_data_same_window | done ]
    | progress case_match ].
Qed.

Lemma load_each_keeps_names_loaded found :
  keeps_names_loaded (load_each USERDATA_DIR vdf_load found).
Proof.
  induction found as [|loc found IH]; simpl.
  - by apply keeps_names_same_window.
  - apply keeps_names_bind; [apply load_keeps_names_loaded|done].
Qed.

(** X7.  Every user name the window knows leads to a loaded document: the
    start-up scan makes it so whatever was there before and however it ends,
    and the Set button and a user selection keep it so, whether they return
    or raise.  Hence, once it holds, [self.user_datas[self.cur_loc_id]] finds
    a document whenever the chosen name is known. *)
Theorem known_names_have_documents :
  (∀ found w,
     names_loaded (win (scan_for_users USERDATA_DIR vdf_load found w).1)) ∧
  (∀ w, names_loaded (win w) →
     names_loaded
       (win (set_launch_options USERDATA_DIR vdf_load vdf_dump w).1)) ∧
  (∀ e w, names_loaded (win w) →
     names_loaded (win (on_user_select USERDATA_DIR vdf_load e w).2.1)) ∧
  (∀ w loc, names_loaded (win w) →
     cur_loc_id w = (w, inr loc) →
     ∃ data, user_data loc w = (w, inr data)).
Proof.
  split_and!.
  - intros found w. unfold scan_for_users.
    erewrite bind_run; [|reflexivity]. erewrite bind_run; [|reflexivity].
    match goal with
    | |- context [(load_each _ _ found ≫= _) ?w0] =>
        pose proof (load_each_keeps_names_loaded found w0) as Heach
    end.
    unfold mbind, M_bind, gets in *.
    destruct (load_each _ _ found _) as [w1 [e|[]]]; simpl in *.
    + apply Heach. intros name loc. by rewrite lookup_empty.
    + destruct (decide (user_local_ids (win w1) = ∅)); simpl;
        apply Heach; intros name loc; by rewrite lookup_empty.
  - apply set_launch_options_keeps_names_loaded.
  - intros e w Hw. unfold on_user_select. simpl.
    revert w Hw.
    change (keeps_names_loaded
      (loc ← cur_loc_id;
       load_user_config USERDATA_DIR vdf_load loc;; refresh_statistics)).
    apply keeps_names_bind;
      [apply keeps_names_same_window, cur_loc_id_same_window|intros loc].
    apply keeps_names_bind;
      [apply load_keeps_names_loaded|intros _].
    apply refresh_keeps_names_loaded.
  - intros w loc Hw. unfold cur_loc_id, mbind, M_bind, gets. simpl.
    destruct (user_local_ids (win w) !! user_choice (win w)) as [loc'|] eqn:Hc;
      [|done].
    intros [= ->]. destruct (Hw _ _ Hc) as [data Hdata].
    exists data. by apply user_data_run.
Qed.

End NamesLoaded.

(** ** Paths and the document around the apps *)

Section PathFacts.

Lemma get_update_first_eq k f (d : Dict) :
  PyDict.get k (update_first k f d) = f <$> PyDict.get k d.
Proof.
  induction d as [|[k' v] d IH]; [done|]. simpl.
  destruct (decide (k' = k)) as [->|Hne]; simpl.
  - by rewrite decide_True.
  - by rewrite decide_False.
Qed.

Lemma get_update_first_ne k k' f (d : Dict) :
  k ≠ k' → PyDict.get k' (update_first k f d) = PyDict.get k' d.
Proof.
  intros Hne. induction d as [|[k0 v] d IH]; [done|]. simpl.
  destruct (decide (k0 = k)) as [->|Hk]; simpl.
  - by rewrite !decide_False.
  - case_decide; done.
Qed.

Lemma keys_update_first k f (d : Dict) : (update_first k f d).*1 = d.*1.
Proof.
  induction d as [|[k0 v] d IH]; [done|]. simpl.
  case_decide; simpl; [done|]. f_equal. apply IH.
Qed.

Lemma navigate_cons k path items :
  navigate (k :: path) (Section items) =
    match PyDict.get k items with
    | Some v => navigate path v
    | None => inl (KeyError k)
    end.
Proof. done. Qed.

Lemma replace_at_cons k path new items :
  replace_at (k :: path) new (Section items) =
    Section (update_first k (replace_at path new) items).
Proof. done. Qed.

(** What was put at a path is found there. *)
Lemma navigate_replace_at_same path new node old :
  navigate path node = inr old →
  navigate path (replace_at path new node) = inr new.
Proof.
  revert node. induction path as [|k path IH]; intros node; [done|].
  destruct node as [s|items]; [done|].
  rewrite replace_at_cons !navigate_cons get_update_first_eq.
  destruct (PyDict.get k items) as [v|]; [|done]. simpl. apply IH.
Qed.

(** Putting something at a path changes nothing along a path that parts
    ways with it. *)
Lemma navigate_replace_at_diverge p q new node :
  diverge p q → navigate q (replace_at p new node) = navigate q node.
Proof.
  intros (common & k1 & k2 & rest1 & rest2 & -> & -> & Hne).
  revert node. induction common as [|k common IH]; intros node; simpl.
  - destruct node as [s|items]; [done|].
    by rewrite replace_at_cons !navigate_cons get_update_first_ne.
  - destruct node as [s|items]; [done|].
    rewrite replace_at_cons !navigate_cons get_update_first_eq.
    destruct (PyDict.get k items) as [v|]; [|done]. simpl. apply IH.
Qed.

End PathFacts.

(** ** The Set button, step by step *)

Section SetFacts.
Variable USERDATA_DIR : string.
Variable vdf_load : string → Exn + Node.
Variable vdf_dump : Node → string.

Lemma loaded_choice loc name data w :
  user_local_ids (win w) !! user_choice (win w) = Some loc →
  user_local_ids (win (loaded loc name data w))
    !! user_choice (win (loaded loc name data w)) = Some loc.
Proof.
  intros Hloc. simpl. destruct (decide (name = user_choice (win w))) as [->|Hne].
  - apply lookup_insert_eq.
  - by rewrite lookup_insert_ne.
Qed.

Lemma run_loop_cases w loc data :
  user_local_ids (win w) !! user_choice (win w) = Some loc →
  user_datas (win w) !! loc = Some data →
  run_loop w =
    match navigate APPS_PATH data with
    | inl e => (w, inl e)
    | inr appconfs =>
        match items_of appconfs with
        | inl e => (w, inl e)
        | inr items =>
            (mkWorld
               (set_user_datas
                  (<[loc := replace_at APPS_PATH
                              (Section (apps_after (edit_apps (win w) items)))
                              data]>
                     (user_datas (win w)))
                  (win w))
               (files w)
               (events w ++
                  (EvPrint <$> printed (state_after (edit_apps (win w) items)))),
             match raised (edit_apps (win w) items) with
             | Some e => inl e
             | None => inr (state_after (edit_apps (win w) items))
             end)
        end
    end.
Proof.
  intros Hloc Hdata. unfold run_loop.
  rewrite (bind_run _ _ w w (win w)); [|done].
  rewrite (bind_run _ _ _ _ _ (cur_loc_id_run _ _ Hloc)).
  rewrite (bind_run _ _ _ _ _ (user_data_run _ _ _ Hdata)).
  rewrite /lift /mbind /M_bind.
  destruct (navigate APPS_PATH data) as [e|appconfs]; [done|].
  destruct (items_of appconfs) as [e|items]; [done|]. simpl.
  by destruct (raised (edit_apps (win w) items)).
Qed.

(** Once the chosen user's file loads, the method does what [set_outcome]
    writes out. *)
Lemma set_launch_options_loaded w loc text data name :
  user_local_ids (win w) !! user_choice (win w) = Some loc →
  files w !! get_config_file_path USERDATA_DIR loc = Some text →
  vdf_load text = inr data →
  navigate (NAME_PATH loc) data = inr (Leaf name) →
  set_launch_options USERDATA_DIR vdf_load vdf_dump w =
    set_outcome USERDATA_DIR vdf_dump loc name data w.
Proof.
  intros Hloc Hfile Hload Hname. unfold set_launch_options, set_outcome.
  rewrite (bind_run _ _ _ _ _ (cur_loc_id_run _ _ Hloc)).
  rewrite (bind_run _ _ _ _ _
             (load_user_config_run _ _ _ _ _ _ _ Hfile Hload Hname)).
  fold (loaded loc name data w).
  pose proof (loaded_choice loc name data w Hloc) as Hloc1.
  assert (user_datas (win (loaded loc name data w)) !! loc = Some data)
    as Hdata1 by apply lookup_insert_eq.
  pose proof (run_loop_cases _ _ _ Hloc1 Hdata1) as Hrun.
  destruct (navigate APPS_PATH data) as [e|appconfs] eqn:Hnav.
  { by rewrite (bind_raise _ _ _ _ _ Hrun). }
  destruct appconfs as [s|apps]; cbn [items_of] in Hrun |- *.
  { by rewrite (bind_raise _ _ _ _ _ Hrun). }
  assert (edit_apps (win (loaded loc name data w)) apps = edit_apps (win w) apps)
    as Hedit by reflexivity.
  rewrite !Hedit in Hrun. clear Hedit.
  destruct (raised (edit_apps (win w) apps)) as [e|] eqn:Hraised.
  { by rewrite (bind_raise _ _ _ _ _ Hrun). }
  rewrite (bind_run _ _ _ _ _ Hrun).
  set (out := edit_apps (win w) apps) in *.
  set (doc := replace_at APPS_PATH (Section (apps_after out)) data).
  set (w2 := mkWorld _ _ _).
  assert (user_local_ids (win w2) !! user_choice (win w2) = Some loc) as Hloc2
    by exact Hloc1.
  assert (user_datas (win w2) !! loc = Some doc) as Hdata2
    by apply lookup_insert_eq.
  assert (navigate APPS_PATH doc = inr (Section (apps_after out))) as Hnav2
    by by eapply navigate_replace_at_same.
  destruct (decide (altered (state_after out) = 0)) as [Hzero|Hpos].
  - erewrite bind_run; [|reflexivity].
    by erewrite refresh_statistics_run.
  - erewrite bind_run; last first.
    { rewrite (bind_run _ _ _ _ _ (cur_loc_id_run _ _ Hloc2)).
      rewrite (bind_run _ _ _ _ _ (cur_loc_id_run _ _ Hloc2)).
      rewrite (bind_run _ _ _ _ _ (user_data_run _ _ _ Hdata2)).
      reflexivity. }
    erewrite refresh_statistics_run; [|done..]. simpl.
    by rewrite -!app_assoc.
Qed.

(** The three ways the method can go: the chosen name is unknown, the load
    raises, or the file loads. *)
Lemma set_launch_options_cases w :
  (user_local_ids (win w) !! user_choice (win w) = None ∧
   set_launch_options USERDATA_DIR vdf_load vdf_dump w =
     (w, inl (KeyError (user_choice (win w))))) ∨
  (∃ loc e,
     user_local_ids (win w) !! user_choice (win w) = Some loc ∧
     load_user_config USERDATA_DIR vdf_load loc w = (w, inl e) ∧
     set_launch_options USERDATA_DIR vdf_load vdf_dump w = (w, inl e)) ∨
  (∃ loc text data name,
     user_local_ids (win w) !! user_choice (win w) = Some loc ∧
     files w !! get_config_file_path USERDATA_DIR loc = Some text ∧
     vdf_load text = inr data ∧
     navigate (NAME_PATH loc) data = inr (Leaf name) ∧
     set_launch_options USERDATA_DIR vdf_load vdf_dump w =
       set_outcome USERDATA_DIR vdf_dump loc name data w).
Proof.
  destruct (user_local_ids (win w) !! user_choice (win w)) as [loc|] eqn:Hloc.
  - right.
    destruct (load_user_config_cases USERDATA_DIR vdf_load loc w)
      as [[e He]|(text & data & name & Hfile & Hload & Hname & _)].
    + left. exists loc, e. split_and!; [done..|].
      unfold set_launch_options.
      rewrite (bind_run _ _ _ _ _ (cur_loc_id_run _ _ Hloc)).
      by rewrite (bind_raise _ _ _ _ _ He).
    + right. exists loc, text, data, name. split_and!; [done..|].
      by eapply set_launch_options_loaded.
  - left. split; [done|].
    by rewrite /set_launch_options /cur_loc_id /mbind /M_bind /gets /= Hloc.
Qed.

End SetFacts.

(** ** What the Set button does not depend on *)

Section SetIndependence.
Variable USERDATA_DIR : string.
Variable vdf_load : string → Exn + Node.
Variable vdf_dump : Node → string.

Lemma load_with_overwrite v loc w :
  load_user_config USERDATA_DIR vdf_load loc (with_overwrite v w) =
    (with_overwrite v (load_user_config USERDATA_DIR vdf_load loc w).1,
     (load_user_config USERDATA_DIR vdf_load loc w).2).
Proof.
  unfold load_user_config, mbind, M_bind, read_file, lift. simpl.
  destruct (files w !! _) as [text|]; [|done].
  destruct (vdf_load text) as [e|data]; [done|].
  by destruct (navigate _ data) as [e|[name|items]].
Qed.

Lemma set_outcome_with_overwrite v loc name data w :
  set_outcome USERDATA_DIR vdf_dump loc name data (with_overwrite v w) =
    (with_overwrite v (set_outcome USERDATA_DIR vdf_dump loc name data w).1,
     (set_outcome USERDATA_DIR vdf_dump loc name data w).2).
Proof.
  unfold set_outcome.
  destruct (navigate APPS_PATH data) as [e|appconfs]; [done|].
  destruct (items_of appconfs) as [e|apps]; [done|].
  change (edit_apps (win (with_overwrite v w)) apps)
    with (edit_apps (win w) apps).
  destruct (raised (edit_apps (win w) apps)); [done|].
  by destruct (decide (altered (state_after (edit_apps (win w) apps)) = 0)).
Qed.

(** X17.  The Set button does the same whether the Overwrite box is ticked or
    not: the same exception or return, the same files, the same message
    boxes and print-out, and the same window but for the box itself. *)
Theorem set_ignores_the_overwrite_box (v : bool) (w : World) :
  set_launch_options USERDATA_DIR vdf_load vdf_dump (with_overwrite v w) =
    (with_overwrite v
       (set_launch_options USERDATA_DIR vdf_load vdf_dump w).1,
     (set_launch_options USERDATA_DIR vdf_load vdf_dump w).2).
Proof.
  destruct (set_launch_options_cases USERDATA_DIR vdf_load vdf_dump w)
    as [[Hloc ->]|[(loc & e & Hloc & Hfail & ->)
                  |(loc & text & data & name & Hloc & Hfile & Hload & Hname & ->)]].
  - by rewrite /set_launch_options /cur_loc_id /mbind /M_bind /gets /= Hloc.
  - unfold set_launch_options.
    rewrite (bind_run _ _ _ _ loc (cur_loc_id_run (with_overwrite v w) _ Hloc)).
    apply bind_raise. by rewrite load_with_overwrite Hfail.
  - rewrite (set_launch_options_loaded USERDATA_DIR vdf_load vdf_dump
               (with_overwrite v w) loc text data name Hloc Hfile Hload Hname).
    apply set_outcome_with_overwrite.
Qed.

Lemma load_with_user_datas m loc w :
  (load_user_config USERDATA_DIR vdf_load loc (with_user_datas m w)).2 =
    (load_user_config USERDATA_DIR vdf_load loc w).2.
Proof.
  unfold load_user_config, mbind, M_bind, read_file, lift. simpl.
  destruct (files w !! _) as [text|]; [|done].
  destruct (vdf_load text) as [e|data]; [done|].
  by destruct (navigate _ data) as [e|[name|items]].
Qed.

(** X11.  The Set button works from the file, not from what the window had
    in memory: with any other documents in memory, it raises or returns the
    same, leaves the same files, shows and prints the same, knows the same
    names and shows the same statistics; and when it returns, the chosen
    user's document in memory is the same too. *)
Theorem set_reloads_from_the_file (m : gmap string Node) (w : World) :
  (set_launch_options USERDATA_DIR vdf_load vdf_dump (with_user_datas m w)).2 =
    (set_launch_options USERDATA_DIR vdf_load vdf_dump w).2 ∧
  files (set_launch_options USERDATA_DIR vdf_load vdf_dump
           (with_user_datas m w)).1 =
    files (set_launch_options USERDATA_DIR vdf_load vdf_dump w).1 ∧
  events (set_launch_options USERDATA_DIR vdf_load vdf_dump
            (with_user_datas m w)).1 =
    events (set_launch_options USERDATA_DIR vdf_load vdf_dump w).1 ∧
  user_local_ids (win (set_launch_options USERDATA_DIR vdf_load vdf_dump
                         (with_user_datas m w)).1) =
    user_local_ids (win (set_launch_options USERDATA_DIR vdf_load vdf_dump w).1) ∧
  statistics (win (set_launch_options USERDATA_DIR vdf_load vdf_dump
                     (with_user_datas m w)).1) =
    statistics (win (set_launch_options USERDATA_DIR vdf_load vdf_dump w).1) ∧
  (∀ loc,
     user_local_ids (win w) !! user_choice (win w) = Some loc →
     (set_launch_options USERDATA_DIR vdf_load vdf_dump w).2 = inr () →
     user_datas (win (set_launch_options USERDATA_DIR vdf_load vdf_dump
                        (with_user_datas m w)).1) !! loc =
       user_datas (win (set_launch_options USERDATA_DIR vdf_load vdf_dump w).1)
         !! loc).
Proof.
  destruct (set_launch_options_cases USERDATA_DIR vdf_load vdf_dump w)
    as [[Hloc ->]|[(loc & e & Hloc & Hfail & ->)
                  |(loc & text & data & name & Hloc & Hfile & Hload & Hname & ->)]].
  - rewrite /set_launch_options /cur_loc_id /mbind /M_bind /gets /= Hloc.
    split_and!; try done.
  - assert (set_launch_options USERDATA_DIR vdf_load vdf_dump
              (with_user_datas m w) = (with_user_datas m w, inl e)) as ->.
    { unfold set_launch_options.
      rewrite (bind_run _ _ _ _ loc
                 (cur_loc_id_run (with_user_datas m w) _ Hloc)).
      apply bind_raise.
      pose proof (load_with_user_datas m loc w) as Hsame.
      rewrite Hfail in Hsame.
      destruct (load_user_config_cases USERDATA_DIR vdf_load loc
                  (with_user_datas m w))
        as [[e' He']|(? & ? & ? & _ & _ & _ & Hrun)].
      - rewrite He' in Hsame |- *. simpl in Hsame. congruence.
      - by rewrite Hrun in Hsame. }
    split_and!; try done.
  - rewrite (set_launch_options_loaded USERDATA_DIR vdf_load vdf_dump
               (with_user_datas m w) loc text data name Hloc Hfile Hload Hname).
    unfold set_outcome.
    destruct (navigate APPS_PATH data) as [e|appconfs]; [by split_and!|].
    destruct (items_of appconfs) as [e|apps]; [by split_and!|].
    change (edit_apps (win (with_user_datas m w)) apps)
      with (edit_apps (win w) apps).
    destruct (raised (edit_apps (win w) apps)); [by split_and!|].
    destruct (decide (altered (state_after (edit_apps (win w) apps)) = 0));
      (split_and!; try done; intros loc' Hloc' _; simpl;
       assert (loc' = loc) as -> by congruence;
       by rewrite !lookup_insert_eq).
Qed.

End SetIndependence.

(** ** What the Set button leaves behind *)

Section SetReport.
Import PyDict PyDictFacts.
Variable USERDATA_DIR : string.
Variable vdf_load : string → Exn + Node.
Variable vdf_dump : Node → string.

(** After the body, an app's dict has launch options exactly when the entry
    was not empty. *)
Lemma body_has_options new_option appid fields st appconf' st' :
  loop_body new_option appid (Section fields) st = inr (appconf', st') →
  has_launch_options appconf' = truthy new_option.
Proof.
  body_cases new_option fields; intros [= <- <-]; simpl.
  - apply contains_true. eauto.
  - apply contains_true. eauto.
  - apply contains_false, get_del_eq.
  - apply contains_true. rewrite get_set_eq. eauto.
  - by apply contains_false.
Qed.

Lemma edit_loop_has_options new_option apps st :
  Forall (λ kv, is_section kv.2) apps →
  Forall (λ kv, has_launch_options kv.2 = truthy new_option)
         (apps_after (edit_loop new_option apps st)).
Proof.
  intros Hall. revert st.
  induction Hall as [|[appid [s|fields]] apps Hsec Hall IH]; intros st;
    [done|done|].
  simpl. destruct (loop_body _ _ _ _) as [e|[appconf' st']] eqn:Hbody.
  - destruct (body_section_ok new_option appid fields st) as (? & ? & Hok).
    by rewrite Hok in Hbody.
  - simpl. constructor; [|apply IH].
    by apply (body_has_options _ _ _ _ _ _ Hbody).
Qed.

Lemma count_has_options (b : bool) (apps : Dict) :
  Forall (λ kv, has_launch_options kv.2 = b) apps →
  length (filter (λ kv, has_launch_options kv.2 = true) apps) =
    if b then length apps else 0.
Proof.
  induction 1 as [|kv apps Hkv Hall IH]; [by destruct b|].
  rewrite filter_cons. destruct b; case_decide; simpl; congruence.
Qed.

(** X9.  When the Set button runs over app dicts, it returns, and the
    statistics then show every app as having launch options if the entry was
    not empty, and none of them if it was empty. *)
Theorem statistics_after_set (w : World) (loc text name : string)
    (data : Node) (apps : Dict) :
  user_local_ids (win w) !! user_choice (win w) = Some loc →
  files w !! get_config_file_path USERDATA_DIR loc = Some text →
  vdf_load text = inr data →
  navigate (NAME_PATH loc) data = inr (Leaf name) →
  navigate APPS_PATH data = inr (Section apps) →
  Forall (λ kv, is_section kv.2) apps →
  (set_launch_options USERDATA_DIR vdf_load vdf_dump w).2 = inr () ∧
  statistics (win (set_launch_options USERDATA_DIR vdf_load vdf_dump w).1) =
    GamesWithOptions (length apps)
      (if truthy (ops_entry (win w)) then length apps else 0).
Proof.
  intros Hloc Hfile Hload Hname Happs Hall.
  rewrite (set_launch_options_loaded USERDATA_DIR vdf_load vdf_dump
             w loc text data name Hloc Hfile Hload Hname).
  unfold set_outcome. rewrite Happs. cbn [items_of].
  unfold edit_apps.
  destruct (edit_loop_sections_ok (ops_entry (win w)) apps (mkLoopState 0 [])
              Hall) as [-> _].
  pose proof (edit_loop_has_options (ops_entry (win w)) apps
                (mkLoopState 0 []) Hall) as Hhas.
  apply count_has_options in Hhas. rewrite edit_loop_length in Hhas.
  case_decide; simpl; rewrite Hhas edit_loop_length //.
Qed.

(** X10.  When the Set button alters an app, the text it writes is the
    dump of the document it has just loaded from the same file, with the
    section of apps replaced by the apps the loop left and nothing else
    touched: every path that parts ways with the path of the apps leads to
    what it led to in the loaded document, the user's name among them; no
    other file changes. *)
Theorem set_writes_the_loaded_document (w : World) (loc text name : string)
    (data : Node) (apps : Dict) :
  user_local_ids (win w) !! user_choice (win w) = Some loc →
  files w !! get_config_file_path USERDATA_DIR loc = Some text →
  vdf_load text = inr data →
  navigate (NAME_PATH loc) data = inr (Leaf name) →
  navigate APPS_PATH data = inr (Section apps) →
  raised (edit_apps (win w) apps) = None →
  altered (state_after (edit_apps (win w) apps)) ≠ 0 →
  ∃ doc,
    files (set_launch_options USERDATA_DIR vdf_load vdf_dump w).1 =
      <[get_config_file_path USERDATA_DIR loc := vdf_dump doc]> (files w) ∧
    navigate APPS_PATH doc =
      inr (Section (apps_after (edit_apps (win w) apps))) ∧
    (∀ path, diverge APPS_PATH path → navigate path doc = navigate path data) ∧
    navigate (NAME_PATH loc) doc = inr (Leaf name).
Proof.
  intros Hloc Hfile Hload Hname Happs Hok Hn.
  rewrite (set_launch_options_loaded USERDATA_DIR vdf_load vdf_dump
             w loc text data name Hloc Hfile Hload Hname).
  unfold set_outcome. rewrite Happs. cbn [items_of]. rewrite Hok.
  case_decide; [done|]. simpl.
  eexists. split; [reflexivity|].
  split; [by eapply navigate_replace_at_same|].
  split; [intros path Hpath; by apply navigate_replace_at_diverge|].
  rewrite navigate_replace_at_diverge //.
  by exists ["UserLocalConfigStore"], "Software", "friends",
    ["Valve"; "Steam"; "apps"], [loc; "name"].
Qed.

End SetReport.

(** ** The statistics label and the user selection *)

Section RefreshFacts.
Variable USERDATA_DIR : string.
Variable vdf_load : string → Exn + Node.

(** The statistics of a section of apps, as the label shows them. *)
Lemma count_le_games (items : Dict) :
  length (filter (λ kv, has_launch_options kv.2 = true) items) ≤ length items.
Proof. apply length_filter. Qed.

(** With the chosen user's document in memory, the refresh depends on what
    stands at the path of the apps. *)
Lemma refresh_statistics_cases w loc data :
  user_local_ids (win w) !! user_choice (win w) = Some loc →
  user_datas (win w) !! loc = Some data →
  refresh_statistics w =
    match navigate APPS_PATH data with
    | inl e => (w, inl e)
    | inr (Leaf _) => (w, inl AttributeError)
    | inr (Section items) =>
        (mkWorld
           (set_statistics
              (GamesWithOptions (length items)
                 (length (filter (λ kv, has_launch_options kv.2 = true) items)))
              (win w))
           (files w) (events w),
         inr ())
    end.
Proof.
  intros Hloc Hdata.
  destruct (navigate APPS_PATH data) as [e|[s|items]] eqn:Hnav.
  - unfold refresh_statistics. apply bind_raise. unfold cur_appconfs.
    rewrite (bind_run _ _ _ _ _ (cur_loc_id_run _ _ Hloc)).
    rewrite (bind_run _ _ _ _ _ (user_data_run _ _ _ Hdata)).
    by rewrite /lift Hnav.
  - unfold refresh_statistics.
    erewrite bind_run; last first.
    { unfold cur_appconfs.
      rewrite (bind_run _ _ _ _ _ (cur_loc_id_run _ _ Hloc)).
      rewrite (bind_run _ _ _ _ _ (user_data_run _ _ _ Hdata)).
      by rewrite /lift Hnav. }
    done.
  - by apply (refresh_statistics_run w loc data items).
Qed.

(** X8.  Refreshing the statistics changes nothing but the label, and
    nothing at all when it raises.  When it returns, the chosen user's
    document in memory has a dict of apps, and the label shows how many
    entries that dict has and how many of them have launch options, which is
    never more than the former. *)
Theorem refresh_touches_only_the_label (w : World) :
  match refresh_statistics w with
  | (w', inl _) => w' = w
  | (w', inr _) =>
      ∃ loc data items have_ops,
        user_local_ids (win w) !! user_choice (win w) = Some loc ∧
        user_datas (win w) !! loc = Some data ∧
        navigate APPS_PATH data = inr (Section items) ∧
        have_ops =
          length (filter (λ kv, has_launch_options kv.2 = true) items) ∧
        have_ops ≤ length items ∧
        w' = mkWorld
               (set_statistics (GamesWithOptions (length items) have_ops)
                  (win w))
               (files w) (events w)
  end.
Proof.
  destruct (user_local_ids (win w) !! user_choice (win w)) as [loc|] eqn:Hloc.
  - destruct (user_datas (win w) !! loc) as [data|] eqn:Hdata.
    + rewrite (refresh_statistics_cases w loc data Hloc Hdata).
      destruct (navigate APPS_PATH data) as [e|[s|items]] eqn:Hnav;
        [done|done|].
      eexists loc, data, items, _. split_and!; try done.
      apply count_le_games.
    + unfold refresh_statistics.
      erewrite (bind_raise cur_appconfs); [done|].
      unfold cur_appconfs.
      rewrite (bind_run _ _ _ _ _ (cur_loc_id_run _ _ Hloc)).
      by rewrite /user_data /mbind /M_bind /gets /= Hdata.
  - unfold refresh_statistics.
    erewrite (bind_raise cur_appconfs); [done|].
    by rewrite /cur_appconfs /cur_loc_id /mbind /M_bind /gets /= Hloc.
Qed.

(** X13.  Choosing a user writes no file and shows or logs nothing beyond
    its own line, whether it returns or raises.  When it raises, the label
    keeps its statistics.  When it returns, the chosen user's file has been
    read again, the document in memory is what [vdf.load] made of it, and
    the label shows the statistics of the apps of that document. *)
Theorem user_select_shows_the_file (e : string) (w : World) :
  files (on_user_select USERDATA_DIR vdf_load e w).2.1 = files w ∧
  events (on_user_select USERDATA_DIR vdf_load e w).2.1 = events w ∧
  user_choice (win (on_user_select USERDATA_DIR vdf_load e w).2.1) =
    user_choice (win w) ∧
  match (on_user_select USERDATA_DIR vdf_load e w).2.2 with
  | inl _ =>
      statistics (win (on_user_select USERDATA_DIR vdf_load e w).2.1) =
        statistics (win w)
  | inr _ =>
      ∃ loc text data items,
        user_local_ids (win w) !! user_choice (win w) = Some loc ∧
        files w !! get_config_file_path USERDATA_DIR loc = Some text ∧
        vdf_load text = inr data ∧
        navigate APPS_PATH data = inr (Section items) ∧
        user_datas (win (on_user_select USERDATA_DIR vdf_load e w).2.1) !! loc =
          Some data ∧
        statistics (win (on_user_select USERDATA_DIR vdf_load e w).2.1) =
          GamesWithOptions (length items)
            (length (filter (λ kv, has_launch_options kv.2 = true) items))
  end.
Proof.
  unfold on_user_select. cbn [snd].
  destruct (user_local_ids (win w) !! user_choice (win w)) as [loc|] eqn:Hloc.
  - rewrite (bind_run _ _ _ _ _ (cur_loc_id_run _ _ Hloc)).
    destruct (load_user_config_cases USERDATA_DIR vdf_load loc w)
      as [[e' He']|(text & data & name & Hfile & Hload & Hname & Hrun)].
    + by rewrite (bind_raise _ _ _ _ _ He').
    + rewrite (bind_run _ _ _ _ _ Hrun).
      rewrite (refresh_statistics_cases (loaded loc name data w) loc data
                 (loaded_choice loc name data w Hloc));
        [|apply lookup_insert_eq].
      destruct (navigate APPS_PATH data) as [e'|[s|items]] eqn:Hnav;
        [done|done|].
      split_and!; try done. simpl.
      exists loc, text, data, items. split_and!; try done.
      apply lookup_insert_eq.
  - by rewrite /cur_loc_id /mbind /M_bind /gets /= Hloc.
Qed.

End RefreshFacts.

(** ** The start-up scan *)

Section ScanFacts.
Variable USERDATA_DIR : string.
Variable vdf_load : string → Exn + Node.

(** A load returns exactly for a user whose file holds a document. *)
Lemma load_user_config_document loc w :
  match user_document USERDATA_DIR vdf_load (files w) loc with
  | Some (name, data) =>
      load_user_config USERDATA_DIR vdf_load loc w =
        (loaded loc name data w, inr ())
  | None =>
      ∃ e, load_user_config USERDATA_DIR vdf_load loc w = (w, inl e)
  end.
Proof.
  unfold user_document, load_user_config, mbind, M_bind, read_file, lift.
  destruct (files w !! _) as [text|]; simpl; [|eauto].
  destruct (vdf_load text) as [e|data]; [eauto|].
  destruct (navigate _ data) as [e|[name|items]]; eauto.
Qed.

(** Whether a load raises, and what, depends on the files only. *)
Lemma load_result_files loc w1 w0 :
  files w1 = files w0 →
  (load_user_config USERDATA_DIR vdf_load loc w1).2 =
    (load_user_config USERDATA_DIR vdf_load loc w0).2.
Proof.
  intros Hfiles.
  unfold load_user_config, mbind, M_bind, read_file, lift. rewrite Hfiles.
  destruct (files w0 !! _) as [text|]; simpl; [|done].
  destruct (vdf_load text) as [e|data]; [done|].
  by destruct (navigate _ data) as [e|[name|items]].
Qed.

(** The loop of the scan: it stops at the first user whose load raises;
    otherwise every listed user is in memory with the document of its file,
    and every name leads to the last listed user of that name. *)
Lemma load_each_spec found w :
  files (load_each USERDATA_DIR vdf_load found w).1 = files w ∧
  events (load_each USERDATA_DIR vdf_load found w).1 = events w ∧
  match (load_each USERDATA_DIR vdf_load found w).2 with
  | inl e =>
      ∃ pre loc post,
        found = pre ++ loc :: post ∧
        Forall (λ l, is_Some (user_document USERDATA_DIR vdf_load (files w) l))
               pre ∧
        user_document USERDATA_DIR vdf_load (files w) loc = None ∧
        (load_user_config USERDATA_DIR vdf_load loc w).2 = inl e
  | inr _ =>
      Forall (λ l, is_Some (user_document USERDATA_DIR vdf_load (files w) l))
             found ∧
      (∀ loc,
         user_datas (win (load_each USERDATA_DIR vdf_load found w).1) !! loc =
           if decide (loc ∈ found)
           then snd <$> user_document USERDATA_DIR vdf_load (files w) loc
           else user_datas (win w) !! loc) ∧
      (∀ name,
         user_local_ids (win (load_each USERDATA_DIR vdf_load found w).1)
           !! name =
           match last (users_named USERDATA_DIR vdf_load (files w) name found)
           with
           | Some loc => Some loc
           | None => user_local_ids (win w) !! name
           end)
  end.
Proof.
  revert w. induction found as [|loc found IH]; intros w.
  - simpl. split_and!; done.
  - cbn [load_each]. unfold mbind, M_bind.
    pose proof (load_user_config_document loc w) as Hload.
    destruct (user_document USERDATA_DIR vdf_load (files w) loc)
      as [[name data]|] eqn:Hdoc.
    + rewrite Hload.
      destruct (IH (loaded loc name data w)) as (Hfiles & Hevents & Hrest).
      split; [done|]. split; [done|].
      destruct (load_each USERDATA_DIR vdf_load found (loaded loc name data w))
        as [w2 [e|[]]]; simpl in *.
      * destruct Hrest as (pre & loc' & post & -> & Hpre & Hnone & He).
        exists (loc :: pre), loc', post. split_and!; try done.
        -- constructor; [by rewrite Hdoc|done].
        -- by rewrite -(load_result_files loc' (loaded loc name data w) w).
      * destruct Hrest as (Hall & Hdatas & Hids). split_and!.
        -- constructor; [by rewrite Hdoc|done].
        -- intros l. rewrite Hdatas.
           destruct (decide (l ∈ found)) as [Hin|Hout].
           ++ rewrite decide_True //. by right.
           ++ destruct (decide (l = loc)) as [->|Hne].
              ** rewrite decide_True; [|by left].
                 by rewrite lookup_insert_eq Hdoc.
              ** rewrite decide_False; [|by intros [?|?]%elem_of_cons].
                 by rewrite lookup_insert_ne.
        -- intros n. rewrite Hids. unfold users_named.
           rewrite filter_cons Hdoc. simpl.
           destruct (decide (Some name = Some n)) as [[= ->]|Hne].
           ++ rewrite last_cons lookup_insert_eq.
              by destruct (last _).
           ++ rewrite lookup_insert_ne //. congruence.
    + destruct Hload as [e He]. rewrite He. simpl. split_and!; try done.
      exists [], loc, found. split_and!; try done. by rewrite He.
Qed.

(** X12.  The start-up scan touches no file.  It stops with the exception
    of the first listed entry whose file does not load, without any message;
    it shows "No users found" and leaves with status 1 exactly when nothing
    was listed; otherwise it returns with, in memory, exactly the listed
    users, each with the document of its file, and with every name leading
    to the last listed user of that name, whatever the window remembered
    before. *)
Theorem scan_registers_the_listed_users (found : list string) (w : World) :
  files (scan_for_users USERDATA_DIR vdf_load found w).1 = files w ∧
  match (scan_for_users USERDATA_DIR vdf_load found w).2 with
  | inl e =>
      events (scan_for_users USERDATA_DIR vdf_load found w).1 = events w ∧
      ∃ pre loc post,
        found = pre ++ loc :: post ∧
        Forall (λ l, is_Some (user_document USERDATA_DIR vdf_load (files w) l))
               pre ∧
        user_document USERDATA_DIR vdf_load (files w) loc = None ∧
        (load_user_config USERDATA_DIR vdf_load loc w).2 = inl e
  | inr (Exited status) =>
      status = 1 ∧ found = [] ∧
      events (scan_for_users USERDATA_DIR vdf_load found w).1 =
        events w ++ [EvShowError "No users found"]
  | inr Scanned =>
      found ≠ [] ∧
      events (scan_for_users USERDATA_DIR vdf_load found w).1 = events w ∧
      (∀ loc,
         user_datas (win (scan_for_users USERDATA_DIR vdf_load found w).1)
           !! loc =
           if decide (loc ∈ found)
           then snd <$> user_document USERDATA_DIR vdf_load (files w) loc
           else None) ∧
      (∀ loc, loc ∈ found →
         is_Some (user_document USERDATA_DIR vdf_load (files w) loc)) ∧
      (∀ name,
         user_local_ids (win (scan_for_users USERDATA_DIR vdf_load found w).1)
           !! name =
           last (users_named USERDATA_DIR vdf_load (files w) name found))
  end.
Proof.
  unfold scan_for_users.
  erewrite bind_run; [|reflexivity]. erewrite bind_run; [|reflexivity].
  match goal with
  | |- context [(load_each _ _ found ≫= _) ?w0] =>
      destruct (load_each_spec found w0) as (Hfiles & Hevents & Hrest);
      set (w1 := w0) in *
  end.
  unfold mbind, M_bind, gets.
  destruct (load_each USERDATA_DIR vdf_load found w1) as [w2 [e|[]]];
    simpl in *.
  - split; [done|]. split; [done|].
    destruct Hrest as (pre & loc & post & -> & Hpre & Hnone & He).
    exists pre, loc, post. split_and!; try done.
    by rewrite -(load_result_files loc w1 w).
  - destruct Hrest as (Hall & Hdatas & Hids).
    assert (∀ name, user_local_ids (win w2) !! name =
              last (users_named USERDATA_DIR vdf_load (files w) name found))
      as Hids'.
    { intros name. rewrite Hids lookup_empty. by destruct (last _). }
    destruct (decide (user_local_ids (win w2) = ∅)) as [Hempty|Hsome]; simpl.
    + split; [done|]. split; [done|]. split; [|by rewrite Hevents].
      destruct found as [|loc found]; [done|]. exfalso.
      apply Forall_cons in Hall as [[[name data] Hdoc] _].
      pose proof (Hids' name) as Hname.
      rewrite Hempty lookup_empty /users_named filter_cons Hdoc /= in Hname.
      rewrite decide_True // last_cons in Hname.
      by destruct (last _).
    + split; [done|]. split_and!; try done.
      * intros ->. apply Hsome, map_empty. intros name. by rewrite Hids'.
      * intros loc Hin. by apply (proj1 (Forall_forall _ _) Hall).
Qed.

End ScanFacts.

(** ** Erasing, then setting *)

Section EraseThenSet.
Import PyDict PyDictFacts.

(** Over app dicts without launch options, new options are set silently. *)
Lemma fill_prints_nothing new_option apps st :
  truthy new_option = true →
  Forall (λ kv, is_section kv.2 ∧ has_launch_options kv.2 = false) apps →
  printed (state_after (edit_loop new_option apps st)) = printed st ∧
  altered (state_after (edit_loop new_option apps st)) =
    altered st + length apps.
Proof.
  intros Hnew Hall. revert st.
  induction Hall as [|[appid [s|fields]] apps [Hsec Hhas] Hall IH]; intros st;
    [simpl; split; [done|lia]|done|].
  apply contains_false in Hhas.
  rewrite /= (body_set _ _ _ _ Hnew Hhas) /=.
  destruct (IH (mkLoopState (altered st + 1) (printed st))) as [-> ->].
  simpl. split; [done|lia].
Qed.

(** X14.  Erasing and then setting overwrites: after a run with the entry
    empty, a run with new options over the apps it left sets the new options
    on every app, as the last field of its dict and in place of whatever
    options the app had at first; it counts every app and prints nothing. *)
Theorem erase_then_set_overwrites (self0 self1 : MainWindow) (apps : Dict) :
  ops_entry self0 = "" →
  truthy (ops_entry self1) = true →
  Forall (λ kv, is_section kv.2) apps →
  raised (edit_apps self1 (apps_after (edit_apps self0 apps))) = None ∧
  altered (state_after (edit_apps self1 (apps_after (edit_apps self0 apps)))) =
    length apps ∧
  printed (state_after (edit_apps self1 (apps_after (edit_apps self0 apps)))) =
    [] ∧
  ∀ i appid fields,
    apps !! i = Some (appid, Section fields) →
    apps_after (edit_apps self1 (apps_after (edit_apps self0 apps))) !! i =
      Some (appid,
            Section (del LaunchOptions fields
                       ++ [(LaunchOptions, Leaf (ops_entry self1))])).
Proof.
  intros Hentry Hnew Hall. unfold edit_apps.
  assert (truthy (ops_entry self0) = false) as Hnew0 by by rewrite Hentry.
  set (out0 := edit_loop (ops_entry self0) apps (mkLoopState 0 [])).
  destruct (edit_loop_sections_ok (ops_entry self0) apps (mkLoopState 0 [])
              Hall) as [Hok0 Hall0].
  pose proof (edit_loop_has_options (ops_entry self0) apps (mkLoopState 0 [])
                Hall) as Hhas0.
  rewrite Hnew0 in Hhas0. fold out0 in Hok0, Hall0, Hhas0.
  destruct (edit_loop_sections_ok (ops_entry self1) (apps_after out0)
              (mkLoopState 0 []) Hall0) as [Hok1 _].
  destruct (fill_prints_nothing (ops_entry self1) (apps_after out0)
              (mkLoopState 0 []) Hnew) as [Hprinted Hcount].
  { apply Forall_and. by split. }
  split_and!; [done| | done |].
  - by rewrite Hcount /out0 edit_loop_length.
  - intros i appid fields Hi.
    destruct (edit_loop_lookup_ok _ _ _ _ _ _ Hok0 Hi) as (c0 & d0 & Hi0 & Hb0).
    fold out0 in Hi0.
    destruct (edit_loop_lookup_ok _ _ _ _ _ _ Hok1 Hi0) as (c1 & d1 & -> & Hb1).
    assert (c0 = Section (del LaunchOptions fields)) as ->.
    { destruct (get LaunchOptions fields) as [ops|] eqn:Hget.
      - rewrite (body_erase _ _ _ _ ops Hnew0 Hget) in Hb0. by simplify_eq.
      - rewrite (body_nothing _ _ _ _ Hnew0 Hget) in Hb0. simplify_eq.
        by rewrite del_absent. }
    rewrite (body_set _ _ _ _ Hnew (get_del_eq _ _)) in Hb1. simplify_eq.
    by rewrite set_absent; [|apply get_del_eq].
Qed.

End EraseThenSet.

(** ** Pressing Set twice *)

Section SetTwice.
Variable USERDATA_DIR : string.
Variable vdf_load : string → Exn + Node.
Variable vdf_dump : Node → string.

Lemma update_first_twice k f g (d : Dict) :
  update_first k f (update_first k g d) = update_first k (f ∘ g) d.
Proof.
  induction d as [|[k' v] d IH]; [done|]. simpl.
  destruct (decide (k' = k)) as [->|Hne]; simpl.
  - by rewrite decide_True.
  - rewrite decide_False //. f_equal. apply IH.
Qed.

Lemma update_first_ext k f g (d : Dict) :
  (∀ v, f v = g v) → update_first k f d = update_first k g d.
Proof.
  intros Hfg. induction d as [|[k' v] d IH]; [done|]. simpl.
  case_decide; [by rewrite Hfg|]. f_equal. apply IH.
Qed.

(** Putting something at a path twice is putting the last thing there. *)
Lemma replace_at_twice path new new' node :
  replace_at path new (replace_at path new' node) = replace_at path new node.
Proof.
  revert node. induction path as [|k path IH]; intros node; [done|].
  destruct node as [s|items]; [done|].
  rewrite !replace_at_cons update_first_twice. f_equal.
  apply update_first_ext. intros v. apply IH.
Qed.

(** X16.  Pressing Set a second time with the same entry changes nothing:
    when the first press ran its loop to the end and [vdf.load] reads back
    the document that [vdf.dump] wrote, the second press returns, leaves the
    window and every file as the first left them, and only prints its
    advisories again and shows "No changes made". *)
Theorem second_set_changes_nothing (w : World) (loc text name : string)
    (data : Node) (apps : Dict) :
  user_local_ids (win w) !! user_choice (win w) = Some loc →
  files w !! get_config_file_path USERDATA_DIR loc = Some text →
  vdf_load text = inr data →
  navigate (NAME_PATH loc) data = inr (Leaf name) →
  navigate APPS_PATH data = inr (Section apps) →
  raised (edit_apps (win w) apps) = None →
  vdf_load
    (vdf_dump (replace_at APPS_PATH
                 (Section (apps_after (edit_apps (win w) apps))) data)) =
    inr (replace_at APPS_PATH
           (Section (apps_after (edit_apps (win w) apps))) data) →
  ∃ advs,
    set_launch_options USERDATA_DIR vdf_load vdf_dump
      (set_launch_options USERDATA_DIR vdf_load vdf_dump w).1 =
      (mkWorld
         (win (set_launch_options USERDATA_DIR vdf_load vdf_dump w).1)
         (files (set_launch_options USERDATA_DIR vdf_load vdf_dump w).1)
         (events (set_launch_options USERDATA_DIR vdf_load vdf_dump w).1
            ++ (EvPrint <$> advs) ++ [EvShowError "No changes made"]),
       inr ()).
Proof.
  intros Hloc Hfile Hload Hname Happs Hok Hback.
  rewrite (set_launch_options_loaded USERDATA_DIR vdf_load vdf_dump
             w loc text data name Hloc Hfile Hload Hname).
  unfold set_outcome. rewrite Happs. cbn [items_of]. rewrite Hok.
  set (out := edit_apps (win w) apps) in *.
  set (doc := replace_at APPS_PATH (Section (apps_after out)) data) in *.
  assert (navigate (NAME_PATH loc) doc = inr (Leaf name)) as Hname'.
  { rewrite /doc navigate_replace_at_diverge //.
    by exists ["UserLocalConfigStore"], "Software", "friends",
      ["Valve"; "Steam"; "apps"], [loc; "name"]. }
  assert (navigate APPS_PATH doc = inr (Section (apps_after out))) as Happs'.
  { by eapply navigate_replace_at_same. }
  destruct (decide (altered (state_after out) = 0)) as [Hzero|Hsome].
  - exists (printed (state_after out)). cbn [fst].
    erewrite set_launch_options_loaded;
      [|exact (loaded_choice loc name data w Hloc)|done..].
    unfold set_outcome. rewrite Happs. cbn [items_of].
    change (edit_apps _ apps) with out. rewrite Hok.
    rewrite decide_True //. f_equal.
    rewrite -!app_assoc. f_equal. simpl.
    by rewrite !insert_insert_eq.
  - destruct (rerun_is_noop (ops_entry (win w)) apps (mkLoopState 0 [])
                (mkLoopState 0 []) Hok) as (Hok2 & Hzero2 & Hsame2).
    exists (printed (state_after (edit_apps (win w) (apps_after out)))).
    cbn [fst].
    erewrite (set_launch_options_loaded _ _ _ _ loc _ doc name);
      [|exact (loaded_choice loc name data w Hloc)|apply lookup_insert_eq
       |done..].
    unfold set_outcome. rewrite Happs'. cbn [items_of].
    change (edit_apps _ (apps_after out))
      with (edit_apps (win w) (apps_after out)).
    change (raised (edit_apps (win w) (apps_after out)))
      with (raised (edit_loop (ops_entry (win w)) (apps_after out)
                      (mkLoopState 0 []))).
    change (altered (state_after (edit_apps (win w) (apps_after out))))
      with (altered (state_after (edit_loop (ops_entry (win w)) (apps_after out)
                                    (mkLoopState 0 [])))).
    change (apps_after (edit_apps (win w) (apps_after out)))
      with (apps_after (edit_loop (ops_entry (win w)) (apps_after out)
                          (mkLoopState 0 []))).
    simpl in Hzero2. rewrite Hok2 Hzero2 Hsame2.
    destruct (decide (0 = 0)) as [_|?]; [|done]. f_equal.
    rewrite -!app_assoc. simpl.
    rewrite /doc replace_at_twice -/doc.
    by rewrite !insert_insert_eq.
Qed.

End SetTwice.

(** ** The Set button without a loadable user *)

Section SetStops.
Variable USERDATA_DIR : string.
Variable vdf_load : string → Exn + Node.
Variable vdf_dump : Node → string.


End SetStops.

(** ** The added properties on the sample installation *)

(** X6, on alice's configuration: after the reload alice is still the
    chosen user. *)
Lemma load_forgets_no_name_witness :
  cur_loc_id
    (load_user_config SAMPLE_DIR vdf_load_model "1"
       (world_of scenario_apps "-x" false)).1 =
    ((load_user_config SAMPLE_DIR vdf_load_model "1"
        (world_of scenario_apps "-x" false)).1,
     inr "1").
Proof.
  refine (proj1 (proj2 (proj2
    (load_forgets_no_name SAMPLE_DIR vdf_load_model "1"
       (world_of scenario_apps "-x" false)
       (load_user_config SAMPLE_DIR vdf_load_model "1"
          (world_of scenario_apps "-x" false)).1 _))) _).
  - vm_compute. reflexivity.
  - vm_compute. reflexivity.
Defined.

(** X9, on the three apps of the scenarios with "-x" in the entry. *)
Lemma statistics_after_set_witness :
  (set_launch_options SAMPLE_DIR vdf_load_model vdf_dump_model
     (world_of scenario_apps "-x" false)).2 = inr () ∧
  statistics
    (win (set_launch_options SAMPLE_DIR vdf_load_model vdf_dump_model
            (world_of scenario_apps "-x" false)).1) =
    GamesWithOptions 3 3.
Proof.
  apply (statistics_after_set SAMPLE_DIR vdf_load_model vdf_dump_model
           (world_of scenario_apps "-x" false) "1"
           (Vdf.Serialize (config_of scenario_apps)) "alice"
           (Section (config_of scenario_apps)) scenario_apps).
  - vm_compute. reflexivity.
  - vm_compute. reflexivity.
  - vm_compute. reflexivity.
  - vm_compute. reflexivity.
  - vm_compute. reflexivity.
  - repeat constructor.
Defined.

(** X10, on the three apps of the scenarios with "-x" in the entry. *)
Lemma set_writes_the_loaded_document_witness :
  ∃ doc,
    files (set_launch_options SAMPLE_DIR vdf_load_model vdf_dump_model
             (world_of scenario_apps "-x" false)).1 =
      <[get_config_file_path SAMPLE_DIR "1" := vdf_dump_model doc]>
        (files (world_of scenario_apps "-x" false)) ∧
    navigate APPS_PATH doc =
      inr (Section (apps_after
             (edit_apps (win (world_of scenario_apps "-x" false))
                scenario_apps))) ∧
    (∀ path, diverge APPS_PATH path →
       navigate path doc = navigate path (Section (config_of scenario_apps))) ∧
    navigate (NAME_PATH "1") doc = inr (Leaf "alice").
Proof.
  apply (set_writes_the_loaded_document SAMPLE_DIR vdf_load_model
           vdf_dump_model (world_of scenario_apps "-x" false) "1"
           (Vdf.Serialize (config_of scenario_apps)) "alice"
           (Section (config_of scenario_apps)) scenario_apps).
  - vm_compute. reflexivity.
  - vm_compute. reflexivity.
  - vm_compute. reflexivity.
  - vm_compute. reflexivity.
  - vm_compute. reflexivity.
  - vm_compute. reflexivity.
  - vm_compute. lia.
Defined.

(** X14, on the three apps of the scenarios: erased, then set to "-x". *)
Lemma erase_then_set_overwrites_witness :
  altered (state_after
    (edit_apps (window "-x" false)
       (apps_after (edit_apps (window "" false) scenario_apps)))) = 3.
Proof.
  refine (proj1 (proj2
    (erase_then_set_overwrites (window "" false) (window "-x" false)
       scenario_apps eq_refl eq_refl _))).
  repeat constructor.
Defined.

(** X16, on the three apps of the scenarios with "-x" in the entry. *)
Lemma second_set_changes_nothing_witness :
  ∃ advs,
    set_launch_options SAMPLE_DIR vdf_load_model vdf_dump_model
      (set_launch_options SAMPLE_DIR vdf_load_model vdf_dump_model
         (world_of scenario_apps "-x" false)).1 =
      (mkWorld
         (win (set_launch_options SAMPLE_DIR vdf_load_model vdf_dump_model
                 (world_of scenario_apps "-x" false)).1)
         (files (set_launch_options SAMPLE_DIR vdf_load_model vdf_dump_model
                   (world_of scenario_apps "-x" false)).1)
         (events (set_launch_options SAMPLE_DIR vdf_load_model vdf_dump_model
                    (world_of scenario_apps "-x" false)).1
            ++ (EvPrint <$> advs) ++ [EvShowError "No changes made"]),
       inr ()).
Proof.
  apply (second_set_changes_nothing SAMPLE_DIR vdf_load_model vdf_dump_model
           (world_of scenario_apps "-x" false) "1"
           (Vdf.Serialize (config_of scenario_apps)) "alice"
           (Section (config_of scenario_apps)) scenario_apps).
  - vm_compute. reflexivity.
  - vm_compute. reflexivity.
  - vm_compute. reflexivity.
  - vm_compute. reflexivity.
  - vm_compute. reflexivity.
  - vm_compute. reflexivity.
  - vm_compute. reflexivity.
Defined.
